(** * Axle-load and traction/resistance models of the special-vehicle design scripts

    A shallow embedding of [calculate.py], [calculate_new.py] and
    [dynamic_simulation.py], and the properties of their numeric cores.

    Numbers.  The scripts compute with Python and numpy floats.  The
    embedding computes with exact rationals ([Q], compared with [==]):
    rounding error, overflow, infinities and NaN are outside the model.
    Two divisions by a quantity that can be zero are modelled explicitly:
    the Python scalar division of the equal-pair model raises
    [ZeroDivisionError], and the numpy division of the gradeability
    computation yields an infinity that the following clamp absorbs.  The
    tractive curve divides arrays by the wheel radius and by the overall
    ratio; numpy gives infinities there when these are zero, so the
    statements about that curve assume its input contract
    ([curve_contract]).  The sweep offsets produced by [np.arange] on
    integer bounds are integers ([Z]).  Angles are real numbers ([R]).

    Effects.  A call either returns a value or raises an exception, and
    may print warning lines before doing so; a computation is a pair of
    the warnings printed and the outcome.  Only the lines that start with
    the warning marker are recorded; report lines are presentation. *)

From Stdlib Require Import ZArith QArith Qabs Qround Qminmax Qfield.
From Stdlib Require Import Reals Qreals.
From Stdlib Require Import List Bool Lia Psatz.
Import ListNotations.

Local Open Scope Q_scope.

(** ** Exceptions, printed warnings and the computation monad *)

Inductive exn : Type :=
| ZeroDivisionError
| KeyError
| IndexError
| ValueError.

Inductive outcome (A : Type) : Type :=
| Returns (a : A)
| Raises (e : exn).

Arguments Returns {A} a.
Arguments Raises {A} e.

Inductive message : Type :=
| WarnNegativeLoad (cg_position : Q)
| WarnDegenerate (cg_position : Q).

Definition py (A : Type) : Type := (list message * outcome A)%type.

Definition ret {A} (a : A) : py A := ([], Returns a).

Definition raise {A} (e : exn) : py A := ([], Raises e).

Definition print (m : message) : py unit := ([m], Returns tt).

Definition bind {A B} (m : py A) (k : A -> py B) : py B :=
  match m with
  | (out, Returns a) => let (out', r) := k a in (out ++ out', r)
  | (out, Raises e) => (out, Raises e)
  end.

Declare Scope py_scope.
Delimit Scope py_scope with py.
Notation "x <- m ;; k" := (bind m (fun x => k))
  (at level 61, m at next level, right associativity) : py_scope.
Notation "m ;;; k" := (bind m (fun _ => k))
  (at level 61, right associativity) : py_scope.
Local Open Scope py_scope.

Definition stdout {A} (m : py A) : list message := fst m.
Definition result {A} (m : py A) : outcome A := snd m.

(** [for x in xs: acc.append(f x)]; an exception ends the loop. *)
Fixpoint for_append {A B} (f : A -> py B) (xs : list A) : py (list B) :=
  match xs with
  | [] => ret []
  | x :: rest =>
      r <- f x ;;
      rs <- for_append f rest ;;
      ret (r :: rs)
  end.

(** Python's [a / b] on scalars.  (With a numpy scalar as operand a zero
    divisor gives an infinity instead; the sweeps, which pass such
    scalars, are stated for the configured calculator, whose divisors are
    not zero.) *)
Definition pydiv (a b : Q) : py Q :=
  if Qeq_bool b 0 then raise ZeroDivisionError else ret (a / b).

(** [a < b] as the interpreter decides it. *)
Definition Qltb (a b : Q) : bool := negb (Qle_bool b a).

(** ** Integer [np.arange(start, stop, step)]

    numpy computes the length [ceil((stop - start) / step)], an empty
    array when that is not positive, and fails on a zero step. *)

Definition cdiv (a b : Z) : Z := (- ((- a) / b))%Z.

Definition arange_len (start stop step : Z) : nat :=
  Z.to_nat (cdiv (stop - start) step).

Definition arange (start stop step : Z) : py (list Z) :=
  if (step =? 0)%Z then raise ZeroDivisionError
  else ret (map (fun i => (start + Z.of_nat i * step)%Z)
                (seq 0 (arange_len start stop step))).

(** ** The calculator object and its result dictionaries *)

(** Fields of [VehicleAxleLoadCalculator]; [axle1] to [axle4] are the
    entries of the [axle_positions] dictionary. *)
Record Calculator : Type := {
  total_weight : Q;
  L1 : Q;
  L2 : Q;
  L3 : Q;
  axle1 : Q;
  axle2 : Q;
  axle3 : Q;
  axle4 : Q
}.

(** [__init__], the same in both scripts. *)
Definition init : Calculator :=
  let l1 := 1800 in
  let l2 := 4800 in
  let l3 := 1400 in
  {| total_weight := 24700;
     L1 := l1; L2 := l2; L3 := l3;
     axle1 := 0;
     axle2 := l1;
     axle3 := l1 + l2;
     axle4 := l1 + l2 + l3 |}.

(** The dictionary returned for one centre-of-gravity position.  The last
    two keys are [front_per_axle] / [rear_per_axle] in [calculate.py] and
    [front_per_axle_avg] / [rear_per_axle_avg] in [calculate_new.py]. *)
Record LoadSample : Type := {
  cg_position : Q;
  cg_absolute : Q;
  axle1_load : Q;
  axle2_load : Q;
  axle3_load : Q;
  axle4_load : Q;
  front_total : Q;
  rear_total : Q;
  front_per_axle : Q;
  rear_per_axle : Q
}.

Definition loads_sum (s : LoadSample) : Q :=
  axle1_load s + axle2_load s + axle3_load s + axle4_load s.

(** The equilibrium search of [find_special_points], identical in both
    scripts: [min_diff] starts at [float('inf')] ([None] here) and the
    current sample replaces the candidate only on a strictly smaller
    difference. *)
Definition balance_diff (r : LoadSample) : Q :=
  Qabs (front_total r - rear_total r).

Definition below (diff : Q) (min_diff : option Q) : bool :=
  match min_diff with
  | None => true
  | Some m => Qltb diff m
  end.

Fixpoint equilibrium_loop (results : list LoadSample)
    (min_diff : option Q) (equilibrium_point : option LoadSample)
    : option LoadSample :=
  match results with
  | [] => equilibrium_point
  | r :: rest =>
      let diff := balance_diff r in
      if below diff min_diff
      then equilibrium_loop rest (Some diff) (Some r)
      else equilibrium_loop rest min_diff equilibrium_point
  end.

Definition find_equilibrium (results : list LoadSample) : option LoadSample :=
  equilibrium_loop results None None.

(** ** [calculate.py]: the equal-pair model *)

Module Calculate.

Definition calculate_axle_loads (self : Calculator) (cg_position : Q)
    : py LoadSample :=
  let cg_absolute := axle2 self + cg_position in
  let W := total_weight self in
  let d := cg_position in
  let denominator := 2 * (L1 self + 2 * L2 self + L3 self) in
  y <- pydiv (W * (L1 self + 2 * d)) denominator ;;
  let x := (W - 2 * y) / 2 in
  (if Qltb x 0 || Qltb y 0
   then print (WarnNegativeLoad cg_position) else ret tt) ;;;
  let front_axle_load := 2 * x in
  let rear_axle_load := 2 * y in
  ret {| cg_position := cg_position;
         cg_absolute := cg_absolute;
         axle1_load := x;
         axle2_load := x;
         axle3_load := y;
         axle4_load := y;
         front_total := front_axle_load;
         rear_total := rear_axle_load;
         front_per_axle := x;
         rear_per_axle := y |}.

Definition analyze_load_distribution (self : Calculator)
    (cg_range : Z * Z) (step : Z) : py (list LoadSample) :=
  cg_positions <- arange (fst cg_range) (snd cg_range + step) step ;;
  for_append (fun cg_pos => calculate_axle_loads self (inject_Z cg_pos))
             cg_positions.

End Calculate.

(** ** [calculate_new.py]: the rigid-frame model and its fallback *)

Module CalculateNew.

Definition calculate_axle_loads_old (self : Calculator) (cg_position : Q)
    : py LoadSample :=
  let cg_absolute := axle2 self + cg_position in
  let W := total_weight self in
  let d := cg_position in
  let denominator := 2 * (L1 self + 2 * L2 self + L3 self) in
  y <- pydiv (W * (L1 self + 2 * d)) denominator ;;
  let x := (W - 2 * y) / 2 in
  let front_axle_load := 2 * x in
  let rear_axle_load := 2 * y in
  ret {| cg_position := cg_position;
         cg_absolute := cg_absolute;
         axle1_load := x;
         axle2_load := x;
         axle3_load := y;
         axle4_load := y;
         front_total := front_axle_load;
         rear_total := rear_axle_load;
         front_per_axle := x;
         rear_per_axle := y |}.

(** Signed distances of the four axles from the centre of gravity. *)
Definition d_list (self : Calculator) (cg_position : Q) : list Q :=
  let cg_absolute := axle2 self + cg_position in
  [axle1 self - cg_absolute; axle2 self - cg_absolute;
   axle3 self - cg_absolute; axle4 self - cg_absolute].

Definition sum (l : list Q) : Q := fold_left Qplus l 0.

Definition S1 (self : Calculator) (cg_position : Q) : Q :=
  sum (d_list self cg_position).

Definition S2 (self : Calculator) (cg_position : Q) : Q :=
  sum (map (fun d_i => d_i ^ 2) (d_list self cg_position)).

Definition denominator (self : Calculator) (cg_position : Q) : Q :=
  4 * S2 self cg_position - S1 self cg_position ^ 2.

(** The literal [1e-10]. *)
Definition eps : Q := 1 # 10000000000.

Definition calculate_axle_loads_new_model (self : Calculator)
    (cg_position : Q) : py LoadSample :=
  let cg_absolute := axle2 self + cg_position in
  let x1 := axle1 self in
  let x2 := axle2 self in
  let x3 := axle3 self in
  let x4 := axle4 self in
  let d1 := x1 - cg_absolute in
  let d2 := x2 - cg_absolute in
  let d3 := x3 - cg_absolute in
  let d4 := x4 - cg_absolute in
  let S1 := S1 self cg_position in
  let S2 := S2 self cg_position in
  let W := total_weight self in
  let denominator := 4 * S2 - S1 ^ 2 in
  if Qltb (Qabs denominator) eps
  then
    print (WarnDegenerate cg_position) ;;;
    calculate_axle_loads_old self cg_position
  else
    F1 <- pydiv (W * (S2 - S1 * d1)) denominator ;;
    F2 <- pydiv (W * (S2 - S1 * d2)) denominator ;;
    F3 <- pydiv (W * (S2 - S1 * d3)) denominator ;;
    F4 <- pydiv (W * (S2 - S1 * d4)) denominator ;;
    let front_axle_load := F1 + F2 in
    let rear_axle_load := F3 + F4 in
    ret {| cg_position := cg_position;
           cg_absolute := cg_absolute;
           axle1_load := F1;
           axle2_load := F2;
           axle3_load := F3;
           axle4_load := F4;
           front_total := front_axle_load;
           rear_total := rear_axle_load;
           front_per_axle := front_axle_load / 2;
           rear_per_axle := rear_axle_load / 2 |}.

Definition analyze_load_distribution (self : Calculator)
    (cg_range : Z * Z) (step : Z) : py (list LoadSample) :=
  cg_positions <- arange (fst cg_range) (snd cg_range + step) step ;;
  for_append
    (fun cg_pos => calculate_axle_loads_new_model self (inject_Z cg_pos))
    cg_positions.

End CalculateNew.

(** ** [dynamic_simulation.py]: traction against resistance *)

(** numpy helpers used by the performance computation. *)

(** [np.linspace(start, stop, num)] for [num >= 2]. *)
Definition linspace (start stop : Q) (num : nat) : list Q :=
  let step := (stop - start) / inject_Z (Z.of_nat (num - 1)) in
  map (fun i => inject_Z (Z.of_nat i) * step + start) (seq 0 num).

(** One point of [np.interp] on the sample points [(xp, fp)], [xp]
    increasing: constant to the left of the first and from the last
    sample point on, linear in between. *)
Fixpoint interp_from (x x0 y0 : Q) (rest : list (Q * Q)) : Q :=
  match rest with
  | [] => y0
  | (x1, y1) :: rest' =>
      if Qltb x x1
      then if Qeq_bool x x0 then y0
           else (y1 - y0) / (x1 - x0) * (x - x0) + y0
      else interp_from x x1 y1 rest'
  end.

Definition interp_point (x : Q) (pts : list (Q * Q)) : Q :=
  match pts with
  | [] => 0
  | (x0, y0) :: rest => if Qltb x x0 then y0 else interp_from x x0 y0 rest
  end.

Definition interp (xs xp fp : list Q) : py (list Q) :=
  match xp with
  | [] => raise ValueError
  | _ :: _ =>
      if negb (length fp =? length xp)%nat then raise ValueError
      else ret (map (fun x => interp_point x (combine xp fp)) xs)
  end.

(** [np.where(a >= b)[0]]: the indices at which [a >= b], increasing. *)
Fixpoint where_ge_from (i : nat) (a b : list Q) : list nat :=
  match a, b with
  | x :: a', y :: b' =>
      if Qle_bool y x then i :: where_ge_from (S i) a' b'
      else where_ge_from (S i) a' b'
  | _, _ => []
  end.

Definition where_ge (a b : list Q) : list nat := where_ge_from 0 a b.

(** [np.argmin]: the first index of the least element. *)
Fixpoint argmin_from (i best : nat) (least : Q) (l : list Q) : nat :=
  match l with
  | [] => best
  | x :: l' =>
      if Qltb x least then argmin_from (S i) i x l'
      else argmin_from (S i) best least l'
  end.

Definition argmin (l : list Q) : py nat :=
  match l with
  | [] => raise ValueError
  | x :: l' => ret (argmin_from 1 0 x l')
  end.

(** [round(x, 1)]: to one decimal, halves to the even neighbour. *)
Definition round_half_even (q : Q) : Z :=
  let n := Qfloor q in
  match Qcompare (q - inject_Z n) (1 # 2) with
  | Lt => n
  | Eq => if Z.even n then n else (n + 1)%Z
  | Gt => (n + 1)%Z
  end.

Definition round1 (q : Q) : Q := Qmake (round_half_even (q * 10)) 10.

(** Fields of [VehiclePerformanceAnalysis].  The key [n] of [gear_ratios]
    stands for the label of gear [n]. *)
Record Vehicle : Type := {
  m : Q;
  g : Q;
  rho : Q;
  Cd : Q;
  A : Q;
  f : Q;
  eta_T : Q;
  r : Q;
  gear_ratios : list (nat * Q);
  final_drive_ratio : Q;
  engine_speed : list Q;
  engine_torque : list Q
}.

Definition vehicle_init : Vehicle :=
  {| m := 24700;
     g := 9.81;
     rho := 1.204;
     Cd := 0.6;
     A := 10.1;
     f := 0.05;
     eta_T := 0.9;
     r := 0.8235;
     gear_ratios :=
       [(1%nat, 13.8); (2%nat, 11.54); (3%nat, 9.49); (4%nat, 7.93);
        (5%nat, 6.53); (6%nat, 5.46); (7%nat, 4.57); (8%nat, 3.82);
        (9%nat, 3.02); (10%nat, 2.53); (11%nat, 2.08); (12%nat, 1.74);
        (13%nat, 1.43); (14%nat, 1.2); (15%nat, 1.0); (16%nat, 0.84)];
     final_drive_ratio := 6.727;
     engine_speed :=
       [800; 1000; 1200; 1400; 1600; 1800; 1900; 2000; 2100; 2200];
     engine_torque :=
       [2000; 2300; 2300; 2300; 2086; 1885; 1789; 1684; 1580; 1475] |}.

Fixpoint getitem (d : list (nat * Q)) (key : nat) : py Q :=
  match d with
  | [] => raise KeyError
  | (k, v) :: d' => if (k =? key)%nat then ret v else getitem d' key
  end.

Record Resistance : Type := {
  total : Q;
  rolling : Q;
  air : Q;
  grade : Q
}.

Definition calculate_tractive_force (self : Vehicle) (gear_name : nat)
    : py (list Q * list Q) :=
  ig <- getitem (gear_ratios self) gear_name ;;
  let i0 := final_drive_ratio self in
  let vehicle_speed :=
    map (fun n => 0.377 * n * r self / (ig * i0)) (engine_speed self) in
  let tractive_force :=
    map (fun Ttq => Ttq * ig * i0 * eta_T self / r self)
        (engine_torque self) in
  ret (vehicle_speed, tractive_force).

(** [calculate_resistance_force] at one speed; on an array of speeds the
    code computes the same thing element by element. *)
Definition calculate_resistance_force (self : Vehicle) (vehicle_speed_kmh : Q)
    : Resistance :=
  let vehicle_speed_ms := vehicle_speed_kmh / 3.6 in
  let rolling_resistance := m self * g self * f self * 1 in
  let air_resistance :=
    0.5 * Cd self * A self * rho self * vehicle_speed_ms ^ 2 in
  let grade_resistance := 0 in
  let total_resistance :=
    rolling_resistance + air_resistance + grade_resistance in
  {| total := total_resistance;
     rolling := rolling_resistance;
     air := air_resistance;
     grade := grade_resistance |}.

(** The speed grid of [calculate_performance_indicators]. *)
Definition speed_range : list Q := linspace 0 220 500.

(** The top-speed block: the tractive curve of gear 5 interpolated on the
    grid against the total resistance; [intersection_idx[-1]] when the
    index array is not empty, the literal [0] otherwise. *)
Definition intersection_idx (self : Vehicle) : py (list nat) :=
  let resistances := map (calculate_resistance_force self) speed_range in
  p <- calculate_tractive_force self 5 ;;
  let '(v_15th, ft_15th) := p in
  ft_15th_interp <- interp speed_range v_15th ft_15th ;;
  ret (where_ge ft_15th_interp (map total resistances)).

Definition max_speed (self : Vehicle) : py Q :=
  intersection_idx <- intersection_idx self ;;
  match rev intersection_idx with
  | last_idx :: _ => ret (nth last_idx speed_range 0)
  | [] => ret 0
  end.

(** [ft[idx]] on an array. *)
Definition index (l : list Q) (idx : nat) : py Q :=
  match nth_error l idx with
  | Some x => ret x
  | None => raise IndexError
  end.

(** The gradeability block up to the force left for climbing: the
    tractive force of gear 1 at the sample nearest to 10 km/h, less the
    resistance at 10 km/h. *)
Definition idx_10kmh (v_1st : list Q) : py nat :=
  argmin (map (fun v => Qabs (v - 10)) v_1st).

Definition available_force (self : Vehicle) : py Q :=
  p <- calculate_tractive_force self 1 ;;
  let '(v_1st, ft_1st) := p in
  idx_10kmh <- idx_10kmh v_1st ;;
  max_tractive_force <- index ft_1st idx_10kmh ;;
  let v_10kmh := 10 in
  let resistances_at_10 := calculate_resistance_force self v_10kmh in
  ret (max_tractive_force - total resistances_at_10).

(** [min(max(available_force / (m * g), 0), 0.5)] for a positive
    [available_force]: the quotient is a numpy scalar division, which
    gives plus infinity on a zero divisor, and the clamp brings that down
    to [0.5]. *)
Definition sin_theta (self : Vehicle) (available_force : Q) : Q :=
  if Qeq_bool (m self * g self) 0 then 0.5
  else Qmin (Qmax (available_force / (m self * g self)) 0) 0.5.

(** [round(x, 1)] on a real. *)
Definition round_half_even_R (x : R) : Z :=
  let n := Int_part x in
  if Rlt_dec (x - IZR n) (1 / 2) then n
  else if Rlt_dec (1 / 2) (x - IZR n) then (n + 1)%Z
  else if Z.even n then n else (n + 1)%Z.

Definition round1_R (x : R) : R := (IZR (round_half_even_R (x * 10)) / 10)%R.

(** [max_grade] and [max_grade_percent] before rounding. *)
Definition max_grade (self : Vehicle) (available_force : Q) : R * R :=
  if Qltb 0 available_force
  then
    let sin_theta := Q2R (sin_theta self available_force) in
    (asin sin_theta * 180 / PI, tan (asin sin_theta) * 100)%R
  else (0, 0)%R.

(** The four entries of the returned dictionary, in its order. *)
Record Indicators : Type := {
  max_speed_kmh : Q;
  max_grade_deg : R;
  max_grade_percent : R;
  accel_time_s : Q
}.

Definition calculate_performance_indicators (self : Vehicle)
    : py Indicators :=
  max_speed <- max_speed self ;;
  available_force <- available_force self ;;
  let '(max_grade, max_grade_percent) := max_grade self available_force in
  let avg_acceleration := 2.5 in
  let accel_time := (100 / 3.6) / avg_acceleration in
  ret {| max_speed_kmh := round1 max_speed;
         max_grade_deg := round1_R max_grade;
         max_grade_percent := round1_R max_grade_percent;
         accel_time_s := round1 accel_time |}.

(** ** Specification-side definitions *)

(** The closed form of the equal-pair loads at the configured constants
    [W = 24700], [L1 = 1800], [L2 = 4800], [L3 = 1400]. *)
Definition equal_pair_y (d : Q) : Q :=
  24700 * (1800 + 2 * d) / (2 * (1800 + 2 * 4800 + 1400)).

Definition equal_pair_x (d : Q) : Q := (24700 - 2 * equal_pair_y d) / 2.

Definition equal_pair (d : Q) (s : LoadSample) : Prop :=
  cg_position s = d /\
  axle1_load s == equal_pair_x d /\ axle2_load s == equal_pair_x d /\
  axle3_load s == equal_pair_y d /\ axle4_load s == equal_pair_y d /\
  front_total s == 2 * equal_pair_x d /\ rear_total s == 2 * equal_pair_y d.

(** The sum of the squared distances between the axles, pair by pair. *)
Definition pairwise_sq (self : Calculator) : Q :=
  (axle1 self - axle2 self) ^ 2 + (axle1 self - axle3 self) ^ 2 +
  (axle1 self - axle4 self) ^ 2 + (axle2 self - axle3 self) ^ 2 +
  (axle2 self - axle4 self) ^ 2 + (axle3 self - axle4 self) ^ 2.

(** A calculator whose axles are a micrometre apart: its rigid-frame
    denominator is below [eps]. *)
Definition tiny : Calculator :=
  {| total_weight := 24700;
     L1 := 1 # 1000000; L2 := 1 # 1000000; L3 := 1 # 1000000;
     axle1 := 0;
     axle2 := 1 # 1000000;
     axle3 := 2 # 1000000;
     axle4 := 3 # 1000000 |}.

(** [e] is the sample at index [i] of [results], no sample has a smaller
    front/rear difference and every earlier one has a larger one. *)
Definition first_minimum (results : list LoadSample) (i : nat)
    (e : LoadSample) : Prop :=
  nth_error results i = Some e /\
  (forall r, In r results -> balance_diff e <= balance_diff r) /\
  (forall j r, (j < i)%nat -> nth_error results j = Some r ->
     balance_diff e < balance_diff r).

(** The offsets [np.arange(start, stop + step, step)] of a sweep. *)
Definition sweep_offsets (start stop step : Z) : list Q :=
  map (fun i => inject_Z (start + Z.of_nat i * step))
      (seq 0 (arange_len start (stop + step) step)).

(** What a sweep call does: it fails exactly on a zero step, and
    otherwise returns one sample per offset. *)
Definition sweep_outcome (start stop step : Z) (run : py (list LoadSample))
    : Prop :=
  match result run with
  | Returns l => step <> 0%Z /\ map cg_position l = sweep_offsets start stop step
  | Raises e => step = 0%Z /\ e = ZeroDivisionError
  end.

Definition offsets (run : py (list LoadSample)) : option (list Q) :=
  match result run with
  | Returns l => Some (map cg_position l)
  | Raises _ => None
  end.

(** Two samples of a sweep that straddle the balance point at equal
    distance. *)
Definition tied_samples : list LoadSample :=
  match result (Calculate.analyze_load_distribution init (2200, 2400)%Z 200%Z) with
  | Returns l => l
  | Raises _ => []
  end.

(** The input contract of the tractive curve of a gear with ratio [ig]:
    engine speeds strictly increasing and a positive speed factor, so
    that the curve's speeds increase and no division is by zero. *)
Fixpoint increasing (l : list Q) : bool :=
  match l with
  | x :: (y :: _) as l' => Qltb x y && increasing l'
  | _ => true
  end.

Definition curve_contract (self : Vehicle) (ig : Q) : Prop :=
  increasing (engine_speed self) = true /\
  0 < r self / (ig * final_drive_ratio self).

(** The total resistance on the speed grid. *)
Definition resistance_total (self : Vehicle) : list Q :=
  map total (map (calculate_resistance_force self) speed_range).

(** The configured vehicle with an engine that delivers no torque. *)
Definition stalled : Vehicle :=
  {| m := 24700; g := 9.81; rho := 1.204; Cd := 0.6; A := 10.1; f := 0.05;
     eta_T := 0.9; r := 0.8235;
     gear_ratios := gear_ratios vehicle_init;
     final_drive_ratio := 6.727;
     engine_speed := engine_speed vehicle_init;
     engine_torque := [0; 0; 0; 0; 0; 0; 0; 0; 0; 0] |}.

(** The same, without rolling resistance: at standstill nothing opposes
    it. *)
Definition frictionless : Vehicle :=
  {| m := 24700; g := 9.81; rho := 1.204; Cd := 0.6; A := 10.1; f := 0;
     eta_T := 0.9; r := 0.8235;
     gear_ratios := gear_ratios vehicle_init;
     final_drive_ratio := 6.727;
     engine_speed := engine_speed vehicle_init;
     engine_torque := [0; 0; 0; 0; 0; 0; 0; 0; 0; 0] |}.

(** The configured vehicle with an engine torque of a million kN·m. *)
Definition overpowered : Vehicle :=
  {| m := 24700; g := 9.81; rho := 1.204; Cd := 0.6; A := 10.1; f := 0.05;
     eta_T := 0.9; r := 0.8235;
     gear_ratios := gear_ratios vehicle_init;
     final_drive_ratio := 6.727;
     engine_speed := engine_speed vehicle_init;
     engine_torque :=
       [1000000000; 1000000000; 1000000000; 1000000000; 1000000000;
        1000000000; 1000000000; 1000000000; 1000000000; 1000000000] |}.

Definition same_forces (a b : Resistance) : Prop :=
  total a == total b /\ rolling a == rolling b /\
  air a == air b /\ grade a == grade b.

(** [k] is the first index of a least element of [l]. *)
Definition first_least (l : list Q) (k : nat) : Prop :=
  (k < length l)%nat /\
  (forall j, (j < length l)%nat -> nth k l 0 <= nth j l 0) /\
  (forall j, (j < k)%nat -> nth k l 0 < nth j l 0).

(** [idx] is the first index of a sample of [v] nearest to [probe]. *)
Definition nearest_sample (v : list Q) (probe : Q) (idx : nat) : Prop :=
  (idx < length v)%nat /\
  (forall j, (j < length v)%nat ->
     Qabs (nth idx v 0 - probe) <= Qabs (nth j v 0 - probe)) /\
  (forall j, (j < idx)%nat ->
     Qabs (nth idx v 0 - probe) < Qabs (nth j v 0 - probe)).

(** The gradeability entries of the dictionary [p] against the force
    [avail] left for climbing. *)
Definition gradeability_spec (self : Vehicle) (avail : Q) (p : Indicators)
    : Prop :=
  (max_grade_deg p <= 30)%R /\
  (avail <= 0 -> max_grade_deg p = 0%R /\ max_grade_percent p = 0%R) /\
  (0 < avail ->
     let s := sin_theta self avail in
     0 <= s <= 0.5 /\
     (~ m self * g self == 0 ->
        s = Qmin (Qmax (avail / (m self * g self)) 0) 0.5) /\
     max_grade_deg p = round1_R (asin (Q2R s) * 180 / PI) /\
     max_grade_percent p = round1_R (tan (asin (Q2R s)) * 100)).

(** The top-speed entry of the dictionary [p] against the interpolated
    tractive curve [ft_interp] on the speed grid. *)
Definition top_speed_spec (self : Vehicle) (ft_interp : list Q)
    (p : Indicators) : Prop :=
  let tractive i := nth i ft_interp 0 in
  let resistance i := nth i (resistance_total self) 0 in
  ((forall i, (i < 500)%nat -> tractive i < resistance i) ->
     max_speed_kmh p = round1 0) /\
  (forall i, (i < 500)%nat -> resistance i <= tractive i ->
     (forall k, (i < k < 500)%nat -> tractive k < resistance k) ->
     max_speed_kmh p = round1 (nth i speed_range 0)) /\
  round1 (nth 0 speed_range 0) = round1 0.

(** ** The extreme points of [find_special_points] *)

(** Python's [max(results, key=...)]: an item replaces the current maximum
    only when its key is strictly greater, so the first of the greatest
    items is kept; an empty sequence raises [ValueError]. *)
Fixpoint max_from (key : LoadSample -> Q) (best : LoadSample)
    (rest : list LoadSample) : LoadSample :=
  match rest with
  | [] => best
  | item :: rest' =>
      if Qltb (key best) (key item) then max_from key item rest'
      else max_from key best rest'
  end.

Definition py_max (key : LoadSample -> Q) (results : list LoadSample)
    : py LoadSample :=
  match results with
  | [] => raise ValueError
  | item :: rest => ret (max_from key item rest)
  end.

(** The three points that [find_special_points] reports, the same in both
    scripts. *)
Record SpecialPoints : Type := {
  equilibrium_point : option LoadSample;
  max_front : LoadSample;
  max_rear : LoadSample
}.

Definition find_special_points (results : list LoadSample)
    : py SpecialPoints :=
  let equilibrium_point := find_equilibrium results in
  max_front <- py_max front_total results ;;
  max_rear <- py_max rear_total results ;;
  ret {| equilibrium_point := equilibrium_point;
         max_front := max_front;
         max_rear := max_rear |}.

(** ** Further specification-side definitions *)

(** The moment of the four axle loads about the centre of gravity. *)
Definition moment (self : Calculator) (s : LoadSample) : Q :=
  axle1_load s * (axle1 self - cg_absolute s) +
  axle2_load s * (axle2 self - cg_absolute s) +
  axle3_load s * (axle3 self - cg_absolute s) +
  axle4_load s * (axle4 self - cg_absolute s).

(** The axle positions are the running sums of the spacings, as
    [__init__] sets them. *)
Definition consistent (self : Calculator) : Prop :=
  axle1 self == 0 /\
  axle2 self == L1 self /\
  axle3 self == L1 self + L2 self /\
  axle4 self == L1 self + L2 self + L3 self.

(** The offsets at which the configured equal-pair model has a negative
    load. *)
Definition negative_load (d : Q) : bool := Qltb d (-900) || Qltb 5500 d.

(** Front and rear totals as affine functions of the offset, crossing at
    the offset 2300 with half the weight each. *)
Definition split_law (k : Q) (s : LoadSample) : Prop :=
  front_total s == 12350 - k * (cg_position s - 2300) /\
  rear_total s == 12350 + k * (cg_position s - 2300).

Definition k_equal_pair : Q := 24700 / 6400.

Definition k_rigid_frame : Q := 24700 * 25600 / 174240000.

(** [e] is the item at index [i] of [results], no item has a greater key
    and every earlier one has a smaller one. *)
Definition first_maximum (key : LoadSample -> Q) (results : list LoadSample)
    (i : nat) (e : LoadSample) : Prop :=
  nth_error results i = Some e /\
  (forall r, In r results -> key r <= key e) /\
  (forall j r, (j < i)%nat -> nth_error results j = Some r -> key r < key e).


(** The samples of the sweep that [main] runs in [calculate.py] and in
    [calculate_new.py]. *)
Definition main_samples : list LoadSample :=
  match result (Calculate.analyze_load_distribution init (0, 4800)%Z 50%Z) with
  | Returns l => l
  | Raises _ => []
  end.

Definition main_samples_new : list LoadSample :=
  match result (CalculateNew.analyze_load_distribution init (0, 4800)%Z 50%Z)
  with
  | Returns l => l
  | Raises _ => []
  end.

(** * Properties *)

(** ** Comparisons and the monad *)

Lemma Qltb_lt (a b : Q) : Qltb a b = true <-> a < b.
Proof.
  unfold Qltb. rewrite negb_true_iff, <- not_true_iff_false, Qle_bool_iff.
  split; [apply Qnot_le_lt | apply Qlt_not_le].
Qed.

Lemma Qltb_ge (a b : Q) : Qltb a b = false <-> b <= a.
Proof.
  unfold Qltb. rewrite negb_false_iff. apply Qle_bool_iff.
Qed.

Lemma Qltb_wd (a a' b b' : Q) : a == a' -> b == b' -> Qltb a b = Qltb a' b'.
Proof.
  intros Ha Hb.
  destruct (Qltb a' b') eqn:E.
  - apply Qltb_lt. apply Qltb_lt in E. now rewrite Ha, Hb.
  - apply Qltb_ge. apply Qltb_ge in E. now rewrite Ha, Hb.
Qed.

Lemma pydiv_nonzero (a b : Q) : ~ b == 0 -> pydiv a b = ret (a / b).
Proof.
  intros Hb. unfold pydiv.
  destruct (Qeq_bool b 0) eqn:E; [|reflexivity].
  apply Qeq_bool_iff in E. contradiction.
Qed.

Lemma bind_ret {A B} (a : A) (k : A -> py B) : bind (ret a) k = k a.
Proof. unfold bind, ret. destruct (k a). reflexivity. Qed.

Lemma result_bind_ret {A B} (run : py A) (a : A) (k : A -> py B) :
  result run = Returns a -> result (bind run k) = result (k a).
Proof.
  destruct run as [out o]. simpl. intros ->. simpl.
  destruct (k a). reflexivity.
Qed.

(** ** The equal-pair model *)

Lemma equal_pair_denominator : ~ 2 * (L1 init + 2 * L2 init + L3 init) == 0.
Proof. discriminate. Qed.

Lemma equal_pair_sum (d : Q) (s : LoadSample) :
  equal_pair d s -> loads_sum s == 24700.
Proof.
  intros (_ & H1 & H2 & H3 & H4 & _). unfold loads_sum.
  rewrite H1, H2, H3, H4. unfold equal_pair_x. field.
Qed.

Lemma calculate_axle_loads_returns (d : Q) :
  exists s, result (Calculate.calculate_axle_loads init d) = Returns s
            /\ equal_pair d s.
Proof.
  unfold Calculate.calculate_axle_loads.
  rewrite (pydiv_nonzero _ _ equal_pair_denominator), bind_ret.
  match goal with |- context [if ?c then _ else _] => destruct c end;
    (eexists; split; [reflexivity|]);
    unfold equal_pair, equal_pair_x, equal_pair_y; cbn;
    repeat split; reflexivity.
Qed.

Lemma calculate_axle_loads_old_returns (d : Q) :
  exists s, CalculateNew.calculate_axle_loads_old init d = ret s
            /\ equal_pair d s.
Proof.
  unfold CalculateNew.calculate_axle_loads_old.
  rewrite (pydiv_nonzero _ _ equal_pair_denominator), bind_ret.
  eexists. split; [reflexivity|].
  unfold equal_pair, equal_pair_x, equal_pair_y; cbn.
  repeat split; reflexivity.
Qed.

(** C2: at the configured constants the equal-pair computation of either
    script returns, for every offset [d], the loads [x, x, y, y] with
    [y = W (L1 + 2 d) / (2 (L1 + 2 L2 + L3))] and [x = (W - 2 y) / 2], and
    the totals [2 x] in front and [2 y] in the rear. *)
Theorem equal_pair_formula (d : Q) :
  (exists s, result (Calculate.calculate_axle_loads init d) = Returns s
             /\ equal_pair d s) /\
  (exists s, result (CalculateNew.calculate_axle_loads_old init d) = Returns s
             /\ equal_pair d s).
Proof.
  split; [apply calculate_axle_loads_returns|].
  destruct (calculate_axle_loads_old_returns d) as (s & -> & Hs).
  exists s. split; [reflexivity | exact Hs].
Qed.

(** ** The rigid-frame model *)

Lemma denominator_pairwise (self : Calculator) (d : Q) :
  CalculateNew.denominator self d == pairwise_sq self.
Proof.
  unfold CalculateNew.denominator, CalculateNew.S1, CalculateNew.S2,
    CalculateNew.sum, CalculateNew.d_list, pairwise_sq.
  cbn [map fold_left]. ring.
Qed.

Lemma denominator_init (d : Q) : CalculateNew.denominator init d == 174240000.
Proof. rewrite denominator_pairwise. reflexivity. Qed.

Lemma denominator_init_nonzero (d : Q) : ~ CalculateNew.denominator init d == 0.
Proof. rewrite denominator_init. discriminate. Qed.

Lemma not_degenerate_init (d : Q) :
  Qltb (Qabs (CalculateNew.denominator init d)) CalculateNew.eps = false.
Proof.
  rewrite (Qltb_wd _ (Qabs 174240000) _ CalculateNew.eps).
  - reflexivity.
  - now rewrite denominator_init.
  - reflexivity.
Qed.

Lemma new_model_returns (d : Q) :
  exists s, CalculateNew.calculate_axle_loads_new_model init d = ret s
            /\ cg_position s = d /\ loads_sum s == 24700.
Proof.
  unfold CalculateNew.calculate_axle_loads_new_model.
  change (4 * CalculateNew.S2 init d - CalculateNew.S1 init d ^ 2)
    with (CalculateNew.denominator init d).
  rewrite not_degenerate_init.
  rewrite !(pydiv_nonzero _ _ (denominator_init_nonzero d)), !bind_ret.
  eexists. split; [reflexivity|]. split; [reflexivity|].
  unfold loads_sum. cbn [axle1_load axle2_load axle3_load axle4_load].
  pose proof (denominator_init_nonzero d) as Hd.
  set (D := CalculateNew.denominator init d) in *.
  cbn [total_weight init].
  unfold CalculateNew.denominator in D.
  field_simplify_eq; [|exact Hd].
  subst D.
  unfold CalculateNew.S1, CalculateNew.S2, CalculateNew.sum,
    CalculateNew.d_list.
  cbn [map fold_left]. ring.
Qed.

(** C1: for every offset, negative ones included, the four axle loads
    returned by the equal-pair computation of [calculate.py], by the
    rigid-frame computation and by the equal-pair computation of
    [calculate_new.py] add up to the configured total weight of 24700 kg,
    exactly. *)
Theorem loads_sum_total_weight (d : Q) :
  (exists s, result (Calculate.calculate_axle_loads init d) = Returns s
             /\ loads_sum s == total_weight init) /\
  (exists s, result (CalculateNew.calculate_axle_loads_new_model init d)
               = Returns s
             /\ loads_sum s == total_weight init) /\
  (exists s, result (CalculateNew.calculate_axle_loads_old init d) = Returns s
             /\ loads_sum s == total_weight init).
Proof.
  split; [|split].
  - destruct (calculate_axle_loads_returns d) as (s & Hs & Hp).
    exists s. split; [exact Hs | exact (equal_pair_sum d s Hp)].
  - destruct (new_model_returns d) as (s & -> & _ & Hsum).
    exists s. split; [reflexivity | exact Hsum].
  - destruct (calculate_axle_loads_old_returns d) as (s & -> & Hp).
    exists s. split; [reflexivity | exact (equal_pair_sum d s Hp)].
Qed.

(** C10: at the configured axle positions the rigid-frame denominator
    [4 S2 - S1 ^ 2] is the sum of the squared distances between the axles,
    174240000, whatever the offset; the test against [1e-10] therefore
    fails and the computation never enters the fallback branch, so that
    no degeneracy warning is printed. *)
Theorem rigid_frame_denominator_constant (d : Q) :
  CalculateNew.denominator init d == pairwise_sq init /\
  CalculateNew.denominator init d == 174240000 /\
  Qltb (Qabs (CalculateNew.denominator init d)) CalculateNew.eps = false /\
  stdout (CalculateNew.calculate_axle_loads_new_model init d) = [].
Proof.
  split; [apply denominator_pairwise|].
  split; [apply denominator_init|].
  split; [apply not_degenerate_init|].
  destruct (new_model_returns d) as (s & -> & _). reflexivity.
Qed.

(** C6: whenever the rigid-frame denominator is below [1e-10] in absolute
    value, the rigid-frame computation prints the degeneracy warning and
    continues as the equal-pair computation at the same offset: it returns
    what that one returns, a sample and not an exception as long as the
    equal-pair denominator [2 (L1 + 2 L2 + L3)] is not zero (it is not for
    positive spacings). *)
Theorem degenerate_falls_back (self : Calculator) (d : Q) :
  Qabs (CalculateNew.denominator self d) < CalculateNew.eps ->
  ~ 2 * (L1 self + 2 * L2 self + L3 self) == 0 ->
  CalculateNew.calculate_axle_loads_new_model self d =
    (print (WarnDegenerate d) ;;;
     CalculateNew.calculate_axle_loads_old self d) /\
  stdout (CalculateNew.calculate_axle_loads_new_model self d)
    = [WarnDegenerate d] /\
  result (CalculateNew.calculate_axle_loads_new_model self d) =
    result (CalculateNew.calculate_axle_loads_old self d) /\
  exists s,
    result (CalculateNew.calculate_axle_loads_new_model self d) = Returns s.
Proof.
  intros Hdeg Hden.
  assert (E : CalculateNew.calculate_axle_loads_new_model self d =
    (print (WarnDegenerate d) ;;;
     CalculateNew.calculate_axle_loads_old self d)).
  { unfold CalculateNew.calculate_axle_loads_new_model.
    change (4 * CalculateNew.S2 self d - CalculateNew.S1 self d ^ 2)
      with (CalculateNew.denominator self d).
    apply Qltb_lt in Hdeg. rewrite Hdeg. reflexivity. }
  rewrite E. split; [reflexivity|].
  unfold CalculateNew.calculate_axle_loads_old.
  rewrite (pydiv_nonzero _ _ Hden), bind_ret.
  repeat split. eexists. reflexivity.
Qed.

Lemma degenerate_falls_back_witness :
  Qabs (CalculateNew.denominator tiny 0) < CalculateNew.eps /\
  stdout (CalculateNew.calculate_axle_loads_new_model tiny 0)
    = [WarnDegenerate 0] /\
  exists s,
    result (CalculateNew.calculate_axle_loads_new_model tiny 0) = Returns s.
Proof.
  assert (H1 : Qabs (CalculateNew.denominator tiny 0) < CalculateNew.eps)
    by reflexivity.
  assert (H2 : ~ 2 * (L1 tiny + 2 * L2 tiny + L3 tiny) == 0) by discriminate.
  destruct (degenerate_falls_back tiny 0 H1 H2) as (_ & Hout & _ & Hres).
  split; [exact H1|]. split; [exact Hout | exact Hres].
Defined.

(** Without that side condition the fallback itself divides by zero. *)
Example degenerate_fallback_may_raise :
  let coincident :=
    {| total_weight := 24700; L1 := 0; L2 := 0; L3 := 0;
       axle1 := 0; axle2 := 0; axle3 := 0; axle4 := 0 |} in
  CalculateNew.calculate_axle_loads_new_model coincident 0
    = ([WarnDegenerate 0], Raises ZeroDivisionError).
Proof. reflexivity. Qed.

(** ** The equilibrium search *)

Lemma equilibrium_loop_spec (rest pre : list LoadSample) (i : nat)
    (e : LoadSample) :
  first_minimum pre i e ->
  exists i' e',
    equilibrium_loop rest (Some (balance_diff e)) (Some e) = Some e' /\
    first_minimum (pre ++ rest) i' e'.
Proof.
  revert pre i e.
  induction rest as [|r rest IH]; intros pre i e (Hnth & Hmin & Hfirst).
  - exists i, e. rewrite app_nil_r. repeat split; auto.
  - cbn [equilibrium_loop below].
    replace (pre ++ r :: rest) with ((pre ++ [r]) ++ rest)
      by (rewrite <- app_assoc; reflexivity).
    destruct (Qltb (balance_diff r) (balance_diff e)) eqn:E.
    + apply Qltb_lt in E.
      apply (IH (pre ++ [r]) (length pre) r).
      split; [|split].
      * rewrite nth_error_app2, Nat.sub_diag by lia. reflexivity.
      * intros r' [Hin | [<- | []]]%in_app_or.
        -- apply Qlt_le_weak. apply Qlt_le_trans with (balance_diff e); auto.
        -- apply Qle_refl.
      * intros j r' Hj Hr'. rewrite nth_error_app1 in Hr' by exact Hj.
        apply Qlt_le_trans with (balance_diff e); [exact E|].
        apply Hmin. eapply nth_error_In; eauto.
    + apply Qltb_ge in E.
      apply (IH (pre ++ [r]) i e).
      assert (Hi : (i < length pre)%nat)
        by (apply nth_error_Some; rewrite Hnth; discriminate).
      split; [|split].
      * rewrite nth_error_app1 by exact Hi. exact Hnth.
      * intros r' [Hin | [<- | []]]%in_app_or; auto.
      * intros j r' Hj Hr'. rewrite nth_error_app1 in Hr' by lia. eauto.
Qed.

(** C9: on a non-empty sequence of samples the equilibrium search ends
    with a sample of the sequence whose difference between front and rear
    total is the least of all, and the first such in the order of the
    sequence: every earlier sample has a strictly larger difference. *)
Theorem find_equilibrium_first_minimum (results : list LoadSample) :
  results <> [] ->
  exists i e, find_equilibrium results = Some e /\ first_minimum results i e.
Proof.
  destruct results as [|r rest]; [congruence|]. intros _.
  unfold find_equilibrium. cbn [equilibrium_loop below].
  apply (equilibrium_loop_spec rest [r] 0 r).
  split; [reflexivity|]. split.
  - intros r' [<- | []]. apply Qle_refl.
  - intros j r' Hj. lia.
Qed.

Lemma find_equilibrium_first_minimum_witness :
  tied_samples <> [] /\
  exists i e, find_equilibrium tied_samples = Some e
              /\ first_minimum tied_samples i e.
Proof.
  assert (H : tied_samples <> []) by (vm_compute; discriminate).
  split; [exact H | exact (find_equilibrium_first_minimum tied_samples H)].
Defined.

(** The offsets 2200 and 2400 are equally far from balance; the search
    keeps the first. *)
Example find_equilibrium_tie :
  map cg_position tied_samples = [2200; 2400] /\
  map (fun s => Qred (front_total s - rear_total s)) tied_samples
    = [6175 # 8; -6175 # 8] /\
  option_map cg_position (find_equilibrium tied_samples) = Some 2200.
Proof. repeat split; vm_compute; reflexivity. Qed.

(** ** The sweep *)

Lemma for_append_offsets {X} (calc : X -> py LoadSample) (pos : X -> Q)
    (xs : list X) :
  (forall x, exists s, result (calc x) = Returns s /\ cg_position s = pos x) ->
  exists l, result (for_append calc xs) = Returns l
            /\ map cg_position l = map pos xs.
Proof.
  intros Hf. induction xs as [|x xs (l & Hl & Hmap)].
  - exists []. split; reflexivity.
  - destruct (Hf x) as (s & Hs & Hcg).
    exists (s :: l). cbn [for_append]. split.
    + rewrite (result_bind_ret _ _ _ Hs), (result_bind_ret _ _ _ Hl).
      reflexivity.
    + cbn [map]. now rewrite Hcg, Hmap.
Qed.

Lemma sweep_spec (calc : Q -> py LoadSample) (start stop step : Z) :
  (forall d, exists s, result (calc d) = Returns s /\ cg_position s = d) ->
  sweep_outcome start stop step
    (cg_positions <- arange start (stop + step) step ;;
     for_append (fun cg_pos => calc (inject_Z cg_pos)) cg_positions).
Proof.
  intros Hf. unfold sweep_outcome, arange.
  destruct (Z.eqb_spec step 0) as [->|Hstep].
  - cbn. split; reflexivity.
  - rewrite bind_ret.
    destruct (for_append_offsets (fun cg_pos => calc (inject_Z cg_pos))
                inject_Z
                (map (fun i => (start + Z.of_nat i * step)%Z)
                     (seq 0 (arange_len start (stop + step) step))))
      as (l & -> & Hmap).
    + intros x. apply Hf.
    + split; [exact Hstep|]. rewrite Hmap, map_map. reflexivity.
Qed.

(** C3, as the code has it: the sweep of either script validates
    nothing.  It fails exactly when the step is zero, with the
    [ZeroDivisionError] of [np.arange]; for every other step, negative
    ones and ranges with [start > end] included, it returns one sample per
    offset [start + i * step], [0 <= i < ceil ((end + step - start) / step)],
    which may be none at all. *)
Theorem sweep_no_validation (start stop step : Z) :
  sweep_outcome start stop step
    (Calculate.analyze_load_distribution init (start, stop) step) /\
  sweep_outcome start stop step
    (CalculateNew.analyze_load_distribution init (start, stop) step).
Proof.
  split.
  - apply (sweep_spec (Calculate.calculate_axle_loads init)).
    intros d. destruct (calculate_axle_loads_returns d) as (s & Hs & Hd & _).
    eauto.
  - apply (sweep_spec (CalculateNew.calculate_axle_loads_new_model init)).
    intros d. destruct (new_model_returns d) as (s & Hs & Hd & _).
    exists s. rewrite Hs. auto.
Qed.

(** C3 fails: a range that starts after its end is swept without error,
    here with one sample at the start, and a negative step on the default
    range gives an empty result, again without error. *)
Lemma sweep_accepts_invalid_range :
  (exists s,
     Calculate.analyze_load_distribution init (10, 0)%Z 100%Z = ret [s]
     /\ cg_position s = 10) /\
  (exists s,
     CalculateNew.analyze_load_distribution init (10, 0)%Z 100%Z = ret [s]
     /\ cg_position s = 10) /\
  Calculate.analyze_load_distribution init (0, 4800)%Z (-100)%Z = ret [] /\
  CalculateNew.analyze_load_distribution init (0, 4800)%Z (-100)%Z = ret [].
Proof.
  repeat split; try (eexists; split; vm_compute; reflexivity);
    vm_compute; reflexivity.
Qed.

(** C8 fails on the code: on the range [(0, 250)] with step 100 the sweep
    of either script samples the offset 300, beyond the end of the range,
    and does not sample the end itself. *)
Theorem sweep_overshoots_end :
  offsets (Calculate.analyze_load_distribution init (0, 250)%Z 100%Z)
    = Some [0; 100; 200; 300] /\
  offsets (CalculateNew.analyze_load_distribution init (0, 250)%Z 100%Z)
    = Some [0; 100; 200; 300].
Proof. split; vm_compute; reflexivity. Qed.

(** For a valid range the last offset of a sweep is the first
    [start + k * step] that is not below the end: it is the end when the
    step divides the length of the range, and lies beyond it, by less than
    a step, otherwise. *)
Lemma cdiv_bounds (a b : Z) :
  (0 < b)%Z -> (a <= cdiv a b * b < a + b)%Z.
Proof.
  intros Hb. unfold cdiv.
  pose proof (Z.div_mod (- a) b ltac:(lia)) as Hdm.
  pose proof (Z.mod_pos_bound (- a) b Hb) as Hm.
  nia.
Qed.

Lemma cdiv_add (a b : Z) : (0 < b)%Z -> cdiv (a + b) b = (cdiv a b + 1)%Z.
Proof.
  intros Hb. unfold cdiv.
  replace (- (a + b))%Z with (- a + (-1) * b)%Z by ring.
  rewrite Z.div_add by lia. ring.
Qed.

Lemma sweep_last_offset (start stop step : Z) :
  (0 < step)%Z -> (start <= stop)%Z ->
  let k := cdiv (stop - start) step in
  last (sweep_offsets start stop step) 0 = inject_Z (start + k * step) /\
  (stop <= start + k * step < stop + step)%Z /\
  (start + k * step = stop <-> (step | stop - start))%Z.
Proof.
  intros Hstep Hle k.
  pose proof (cdiv_bounds (stop - start) step Hstep) as Hk. fold k in Hk.
  assert (Hk0 : (0 <= k)%Z) by nia.
  split; [|split].
  - unfold sweep_offsets, arange_len.
    replace (stop + step - start)%Z with (stop - start + step)%Z by ring.
    rewrite cdiv_add by exact Hstep. fold k.
    replace (Z.to_nat (k + 1)) with (Z.to_nat k + 1)%nat by lia.
    rewrite seq_app, map_app. cbn [seq map].
    rewrite last_last, Nat.add_0_l, Z2Nat.id by exact Hk0. reflexivity.
  - lia.
  - split.
    + intros E. exists k. lia.
    + intros [q Hq].
      assert (q = k) by nia. subst q. lia.
Qed.

(** ** Resistance *)

(** C5, as the code has it: the resistance computation is defined for
    every speed and validates nothing.  It returns the rolling force
    [m g f], the air force [0.5 Cd A rho (v / 3.6) ^ 2], a zero grade force
    and their sum; a negative speed gives the forces of the speed of the
    same magnitude. *)
Theorem resistance_defined_for_every_speed (self : Vehicle) (v : Q) :
  let F := calculate_resistance_force self v in
  rolling F == m self * g self * f self /\
  air F == 0.5 * Cd self * A self * rho self * (v / 3.6) ^ 2 /\
  grade F == 0 /\
  total F == rolling F + air F + grade F /\
  same_forces (calculate_resistance_force self (- v)) F.
Proof.
  unfold same_forces, calculate_resistance_force; cbn [total rolling air grade].
  repeat split; try reflexivity; try ring.
  all: field.
Qed.

(** C5 fails: the speed -36 km/h is not rejected; it gets the forces of
    36 km/h. *)
Lemma resistance_accepts_negative_speed :
  total (calculate_resistance_force vehicle_init (-36)) == 12480.162 /\
  rolling (calculate_resistance_force vehicle_init (-36)) == 12115.35 /\
  air (calculate_resistance_force vehicle_init (-36)) == 364.812 /\
  same_forces (calculate_resistance_force vehicle_init (-36))
              (calculate_resistance_force vehicle_init 36).
Proof. unfold same_forces. repeat split; vm_compute; reflexivity. Qed.

(** The property of the resistance curve at standstill. *)
Example resistance_at_standstill (self : Vehicle) :
  air (calculate_resistance_force self 0) == 0 /\
  rolling (calculate_resistance_force self 0) == m self * g self * f self /\
  total (calculate_resistance_force self 0)
    == rolling (calculate_resistance_force self 0).
Proof.
  unfold calculate_resistance_force; cbn [total rolling air grade].
  repeat split; field.
Qed.

(** ** The grid scan for the top speed *)

Lemma where_ge_from_none (a b : list Q) (i : nat) :
  (forall j, (j < length a)%nat -> (j < length b)%nat ->
     nth j a 0 < nth j b 0) ->
  where_ge_from i a b = [].
Proof.
  revert b i. induction a as [|x a IH]; intros [|y b] i H; try reflexivity.
  cbn [where_ge_from].
  assert (Hxy : Qle_bool y x = false).
  { apply negb_true_iff. apply Qltb_lt. apply (H 0%nat); cbn; lia. }
  rewrite Hxy. apply IH. intros j Ha Hb. apply (H (S j)); cbn; lia.
Qed.

Lemma where_ge_from_last (a b : list Q) (i j : nat) :
  (j < length a)%nat -> (j < length b)%nat ->
  nth j b 0 <= nth j a 0 ->
  (forall k, (j < k)%nat -> (k < length a)%nat -> (k < length b)%nat ->
     nth k a 0 < nth k b 0) ->
  exists l, where_ge_from i a b = l ++ [(i + j)%nat].
Proof.
  revert b i j. induction a as [|x a IH]; intros [|y b] i j Ha Hb Hj Hlater;
    cbn [length] in *; try lia.
  cbn [where_ge_from]. destruct j as [|j].
  - cbn [nth] in Hj. apply Qle_bool_iff in Hj. rewrite Hj.
    rewrite (where_ge_from_none a b (S i)).
    + exists []. rewrite Nat.add_0_r. reflexivity.
    + intros k Hka Hkb. apply (Hlater (S k)); cbn; lia.
  - destruct (IH b (S i) j) as (l & Hl); try lia.
    + exact Hj.
    + intros k Hk Hka Hkb. apply (Hlater (S k)); cbn; lia.
    + rewrite Hl. replace (S i + j)%nat with (i + S j)%nat by lia.
      destruct (Qle_bool y x); [exists (i :: l) | exists l]; reflexivity.
Qed.

Lemma getitem_returns (d : list (nat * Q)) (key : nat) (x : Q) :
  result (getitem d key) = Returns x -> getitem d key = ret x.
Proof.
  induction d as [|[k v] d IH]; cbn [getitem]; [discriminate|].
  destruct (k =? key)%nat; [|exact IH].
  unfold result, ret. cbn [snd]. intros H. congruence.
Qed.

Lemma calculate_tractive_force_returns (self : Vehicle) (gear : nat) (ig : Q) :
  result (getitem (gear_ratios self) gear) = Returns ig ->
  calculate_tractive_force self gear =
    ret (map (fun n => 0.377 * n * r self / (ig * final_drive_ratio self))
             (engine_speed self),
         map (fun Ttq => Ttq * ig * final_drive_ratio self * eta_T self
                         / r self)
             (engine_torque self)).
Proof.
  intros H. unfold calculate_tractive_force.
  rewrite (getitem_returns _ _ _ H), bind_ret. reflexivity.
Qed.

Lemma interp_returns (xs xp fp : list Q) :
  xp <> [] -> length fp = length xp ->
  interp xs xp fp = ret (map (fun x => interp_point x (combine xp fp)) xs).
Proof.
  intros Hxp Hlen. unfold interp. destruct xp; [congruence|].
  rewrite Hlen, Nat.eqb_refl. reflexivity.
Qed.

Lemma max_speed_scan (self : Vehicle) (ig5 : Q) :
  result (getitem (gear_ratios self) 5) = Returns ig5 ->
  engine_speed self <> [] ->
  length (engine_torque self) = length (engine_speed self) ->
  exists v ft ft_interp,
    calculate_tractive_force self 5 = ret (v, ft) /\
    interp speed_range v ft = ret ft_interp /\
    length ft_interp = 500%nat /\
    max_speed self =
      match rev (where_ge ft_interp (resistance_total self)) with
      | last_idx :: _ => ret (nth last_idx speed_range 0)
      | [] => ret 0
      end.
Proof.
  intros Hg Hne Hlen.
  pose proof (calculate_tractive_force_returns self 5 ig5 Hg) as Htf.
  set (v := map _ (engine_speed self)) in Htf.
  set (ft := map _ (engine_torque self)) in Htf.
  assert (Hi : interp speed_range v ft =
               ret (map (fun x => interp_point x (combine v ft)) speed_range)).
  { apply interp_returns.
    - subst v. destruct (engine_speed self); [congruence | discriminate].
    - subst v ft. rewrite !length_map. exact Hlen. }
  exists v, ft, (map (fun x => interp_point x (combine v ft)) speed_range).
  split; [exact Htf|]. split; [exact Hi|].
  split; [rewrite length_map; reflexivity|].
  unfold max_speed, intersection_idx.
  rewrite Htf, bind_ret. cbv beta iota. rewrite Hi, !bind_ret. reflexivity.
Qed.

(** ** The nearest sample and the clamp *)

Lemma argmin_from_spec (rest pre : list Q) (best : nat) :
  first_least pre best ->
  first_least (pre ++ rest)
    (argmin_from (length pre) best (nth best pre 0) rest).
Proof.
  revert pre best.
  induction rest as [|x rest IH]; intros pre best (Hb & Hmin & Hfirst).
  - rewrite app_nil_r. repeat split; assumption.
  - cbn [argmin_from].
    replace (pre ++ x :: rest) with ((pre ++ [x]) ++ rest)
      by (rewrite <- app_assoc; reflexivity).
    assert (Hlen : S (length pre) = length (pre ++ [x]))
      by (rewrite length_app; cbn; lia).
    destruct (Qltb x (nth best pre 0)) eqn:E.
    + apply Qltb_lt in E.
      assert (Hx : nth (length pre) (pre ++ [x]) 0 = x)
        by (rewrite app_nth2, Nat.sub_diag by lia; reflexivity).
      assert (Hinv : first_least (pre ++ [x]) (length pre)).
      { unfold first_least. rewrite <- Hlen, Hx.
        split; [lia|]. split.
        - intros j Hj.
          destruct (Nat.eq_dec j (length pre)) as [->|Hne].
          + rewrite Hx. apply Qle_refl.
          + rewrite app_nth1 by lia. apply Qlt_le_weak.
            apply Qlt_le_trans with (nth best pre 0); [exact E|].
            apply Hmin. lia.
        - intros j Hj. rewrite app_nth1 by lia.
          apply Qlt_le_trans with (nth best pre 0); [exact E|].
          apply Hmin. lia. }
      pose proof (IH _ _ Hinv) as H. rewrite <- Hlen, Hx in H. exact H.
    + apply Qltb_ge in E.
      assert (Hbest : nth best (pre ++ [x]) 0 = nth best pre 0)
        by (rewrite app_nth1 by lia; reflexivity).
      assert (Hinv : first_least (pre ++ [x]) best).
      { unfold first_least. rewrite <- Hlen, Hbest.
        split; [lia|]. split.
        - intros j Hj.
          destruct (Nat.eq_dec j (length pre)) as [->|Hne].
          + rewrite app_nth2, Nat.sub_diag by lia. exact E.
          + rewrite app_nth1 by lia. apply Hmin. lia.
        - intros j Hj. rewrite app_nth1 by lia. apply Hfirst. exact Hj. }
      pose proof (IH _ _ Hinv) as H. rewrite <- Hlen, Hbest in H. exact H.
Qed.

Lemma argmin_spec (l : list Q) :
  l <> [] -> exists k, argmin l = ret k /\ first_least l k.
Proof.
  destruct l as [|x l]; [congruence|]. intros _.
  eexists. split; [reflexivity|].
  apply (argmin_from_spec l [x] 0).
  split; [cbn; lia|]. split.
  - intros j Hj. cbn in Hj. replace j with 0%nat by lia. apply Qle_refl.
  - intros j Hj. lia.
Qed.

Lemma idx_10kmh_nearest (v : list Q) :
  v <> [] -> exists idx, idx_10kmh v = ret idx /\ nearest_sample v 10 idx.
Proof.
  intros Hv. unfold idx_10kmh.
  destruct (argmin_spec (map (fun x => Qabs (x - 10)) v))
    as (k & Hk & Hlt & Hmin & Hfirst).
  { destruct v; [congruence | discriminate]. }
  exists k. split; [exact Hk|].
  rewrite length_map in Hlt, Hmin.
  assert (Hnth : forall j, (j < length v)%nat ->
            nth j (map (fun x => Qabs (x - 10)) v) 0 = Qabs (nth j v 0 - 10)).
  { intros j Hj.
    rewrite (nth_indep _ 0 (Qabs (0 - 10))) by (rewrite length_map; exact Hj).
    apply (map_nth (fun x => Qabs (x - 10))). }
  split; [exact Hlt|]. split.
  - intros j Hj. rewrite <- !Hnth by assumption. apply Hmin. exact Hj.
  - intros j Hj. rewrite <- !Hnth by lia. apply Hfirst. exact Hj.
Qed.

Lemma available_force_returns (self : Vehicle) (ig1 : Q) :
  result (getitem (gear_ratios self) 1) = Returns ig1 ->
  engine_speed self <> [] ->
  length (engine_torque self) = length (engine_speed self) ->
  exists v ft idx force,
    calculate_tractive_force self 1 = ret (v, ft) /\
    nearest_sample v 10 idx /\
    nth_error ft idx = Some force /\
    available_force self =
      ret (force - total (calculate_resistance_force self 10)).
Proof.
  intros Hg Hne Hlen.
  pose proof (calculate_tractive_force_returns self 1 ig1 Hg) as Htf.
  set (v := map _ (engine_speed self)) in Htf.
  set (ft := map _ (engine_torque self)) in Htf.
  assert (Hv : v <> []).
  { subst v. destruct (engine_speed self); [congruence | discriminate]. }
  destruct (idx_10kmh_nearest v Hv) as (idx & Hidx & Hnear).
  assert (Hft : exists force, nth_error ft idx = Some force).
  { destruct (nth_error ft idx) eqn:E; [eauto|].
    apply nth_error_None in E. destruct Hnear as [Hlt _].
    subst v ft. rewrite !length_map in *. lia. }
  destruct Hft as (force & Hforce).
  exists v, ft, idx, force.
  split; [exact Htf|]. split; [exact Hnear|]. split; [exact Hforce|].
  unfold available_force. rewrite Htf, bind_ret. cbv beta iota.
  rewrite Hidx, bind_ret. unfold index. rewrite Hforce, bind_ret.
  reflexivity.
Qed.

Lemma indicators_return (self : Vehicle) (ms avail : Q) :
  max_speed self = ret ms ->
  available_force self = ret avail ->
  exists p,
    calculate_performance_indicators self = ret p /\
    max_speed_kmh p = round1 ms /\
    max_grade_deg p = round1_R (fst (max_grade self avail)) /\
    max_grade_percent p = round1_R (snd (max_grade self avail)).
Proof.
  intros Hms Hav. unfold calculate_performance_indicators.
  rewrite Hms, Hav, !bind_ret.
  destruct (max_grade self avail) as [deg pct].
  eexists. repeat split.
Qed.

Lemma sin_theta_bounds (self : Vehicle) (a : Q) :
  0 <= sin_theta self a <= 0.5.
Proof.
  unfold sin_theta. destruct (Qeq_bool _ _).
  - split; discriminate.
  - split.
    + apply Q.min_glb; [apply Q.le_max_r | discriminate].
    + apply Q.le_min_r.
Qed.

Lemma sin_theta_clamp (self : Vehicle) (a : Q) :
  ~ m self * g self == 0 ->
  sin_theta self a = Qmin (Qmax (a / (m self * g self)) 0) 0.5.
Proof.
  intros H. unfold sin_theta.
  destruct (Qeq_bool _ _) eqn:E; [|reflexivity].
  apply Qeq_bool_iff in E. contradiction.
Qed.

Lemma Q2R_sin_theta_bounds (self : Vehicle) (a : Q) :
  (0 <= Q2R (sin_theta self a) <= 1 / 2)%R.
Proof.
  destruct (sin_theta_bounds self a) as [H0 H1].
  apply Qle_Rle in H0, H1.
  replace (Q2R 0) with 0%R in H0 by (unfold Q2R; simpl; lra).
  replace (Q2R 0.5) with (1 / 2)%R in H1 by (unfold Q2R; simpl; lra).
  split; assumption.
Qed.

(** ** Angles and rounding *)

Section Angles.

Local Open Scope R_scope.

Lemma asin_half : asin (1 / 2) = PI / 6.
Proof.
  rewrite <- sin_PI6. apply asin_sin.
  pose proof PI_RGT_0. lra.
Qed.

(** The arcsine is monotone on [[0, 1/2]], by the monotony of the sine on
    [[-PI/2, PI/2]]. *)
Lemma asin_degrees_le_30 (x : R) :
  0 <= x <= 1 / 2 -> 0 <= asin x * 180 / PI <= 30.
Proof.
  intros [H0 H1]. pose proof PI_RGT_0 as Hpi.
  assert (Hb : - (PI / 2) <= asin x <= PI / 2) by (apply asin_bound).
  assert (Hlo : 0 <= asin x).
  { destruct (Rle_lt_dec 0 (asin x)) as [|Hneg]; [assumption|].
    exfalso.
    assert (Hs : sin (asin x) < sin 0)
      by (apply sin_increasing_1; lra).
    rewrite sin_asin, sin_0 in Hs by lra. lra. }
  assert (Hhi : asin x <= PI / 6).
  { destruct (Rle_lt_dec (asin x) (PI / 6)) as [|Hgt]; [assumption|].
    exfalso.
    assert (Hs : sin (PI / 6) < sin (asin x))
      by (apply sin_increasing_1; lra).
    rewrite sin_asin, sin_PI6 in Hs by lra. lra. }
  split.
  - apply Rmult_le_pos; [nra | apply Rlt_le, Rinv_0_lt_compat, Hpi].
  - apply Rmult_le_reg_r with PI; [exact Hpi|].
    unfold Rdiv. rewrite Rmult_assoc, Rinv_l by lra. lra.
Qed.

Lemma round_half_even_R_le (x : R) (n : Z) :
  x <= IZR n -> (round_half_even_R x <= n)%Z.
Proof.
  intros Hx. unfold round_half_even_R.
  destruct (base_Int_part x) as [Hlo Hhi].
  assert (Hn : (Int_part x <= n)%Z) by (apply le_IZR; lra).
  destruct (Z.eq_dec (Int_part x) n) as [E|E].
  - assert (Hfr : x - IZR (Int_part x) < 1 / 2) by (rewrite E; lra).
    destruct (Rlt_dec _ _); [lia | contradiction].
  - repeat destruct (Rlt_dec _ _); try destruct (Z.even _); lia.
Qed.

Lemma round1_R_le_30 (x : R) : x <= 30 -> round1_R x <= 30.
Proof.
  intros Hx. unfold round1_R.
  assert (H : (round_half_even_R (x * 10) <= 300)%Z)
    by (apply round_half_even_R_le; lra).
  apply IZR_le in H. lra.
Qed.

Lemma round_half_even_R_IZR (n : Z) : round_half_even_R (IZR n) = n.
Proof.
  unfold round_half_even_R.
  assert (E : Int_part (IZR n) = n)
    by (symmetry; apply Int_part_spec; lra).
  rewrite E.
  destruct (Rlt_dec _ _) as [|Hn]; [reflexivity|].
  exfalso. apply Hn. lra.
Qed.

Lemma round1_R_0 : round1_R 0 = 0.
Proof.
  unfold round1_R. replace (0 * 10) with (IZR 0) by (simpl; lra).
  rewrite round_half_even_R_IZR. lra.
Qed.

Lemma round1_R_30 : round1_R 30 = 30.
Proof.
  unfold round1_R. replace (30 * 10) with (IZR 300) by lra.
  rewrite round_half_even_R_IZR. lra.
Qed.

End Angles.

(** ** The performance indicators *)

(** C4, as the code has it: the reported top speed is the last speed of
    the grid of 500 points from 0 to 220 km/h at which the interpolated
    tractive force of gear 5 is at least the total resistance, rounded to
    one decimal.  When the tractive force is below the resistance at every
    grid point the report is the number 0 and nothing else: the dictionary
    has no entry that flags the case, and the value is the one reported
    when the only grid point that qualifies is the speed 0. *)
Theorem max_speed_last_grid_point (self : Vehicle) (ig5 ig1 : Q) :
  result (getitem (gear_ratios self) 5) = Returns ig5 ->
  result (getitem (gear_ratios self) 1) = Returns ig1 ->
  engine_speed self <> [] ->
  length (engine_torque self) = length (engine_speed self) ->
  curve_contract self ig5 ->
  exists v ft ft_interp p,
    result (calculate_tractive_force self 5) = Returns (v, ft) /\
    result (interp speed_range v ft) = Returns ft_interp /\
    result (calculate_performance_indicators self) = Returns p /\
    top_speed_spec self ft_interp p.
Proof.
  intros Hg5 Hg1 Hne Hlen _.
  destruct (max_speed_scan self ig5 Hg5 Hne Hlen)
    as (v & ft & ft_interp & Htf & Hi & Hlt & Hms).
  destruct (available_force_returns self ig1 Hg1 Hne Hlen)
    as (_ & _ & _ & force & _ & _ & _ & Hav).
  assert (Hlr : length (resistance_total self) = 500%nat).
  { unfold resistance_total. rewrite !length_map. reflexivity. }
  assert (Hnone :
    (forall i, (i < 500)%nat ->
       nth i ft_interp 0 < nth i (resistance_total self) 0) ->
    where_ge ft_interp (resistance_total self) = []).
  { intros H. apply where_ge_from_none. intros j Hj _. apply H. lia. }
  assert (Hlast : forall i, (i < 500)%nat ->
    nth i (resistance_total self) 0 <= nth i ft_interp 0 ->
    (forall k, (i < k < 500)%nat ->
       nth k ft_interp 0 < nth k (resistance_total self) 0) ->
    exists l, rev (where_ge ft_interp (resistance_total self)) = i :: l).
  { intros i Hi500 Hge Hlater.
    assert (Hafter : forall k, (i < k)%nat ->
              (k < length ft_interp)%nat ->
              (k < length (resistance_total self))%nat ->
              nth k ft_interp 0 < nth k (resistance_total self) 0)
      by (intros k Hk Hka _; apply Hlater; lia).
    destruct (where_ge_from_last ft_interp (resistance_total self) 0 i
                ltac:(lia) ltac:(lia) Hge Hafter) as (l & Hl).
    exists (rev l). unfold where_ge. rewrite Hl, rev_app_distr. reflexivity. }
  exists v, ft, ft_interp.
  destruct (rev (where_ge ft_interp (resistance_total self)))
    as [|last_idx others] eqn:Hrev;
    destruct (indicators_return self _ _ Hms Hav) as (p & Hp & Hspeed & _);
    exists p; rewrite Htf, Hi, Hp; do 3 (split; [reflexivity|]);
    unfold top_speed_spec; (split; [|split; [|reflexivity]]).
  - intros _. exact Hspeed.
  - intros i Hi500 Hge Hlater.
    destruct (Hlast i Hi500 Hge Hlater) as (l & Hl). discriminate.
  - intros H. apply Hnone in H. rewrite H in Hrev. discriminate.
  - intros i Hi500 Hge Hlater.
    destruct (Hlast i Hi500 Hge Hlater) as (l & Hl).
    injection Hl as <- _. exact Hspeed.
Qed.

Lemma max_speed_last_grid_point_witness :
  exists v ft ft_interp p,
    result (calculate_tractive_force vehicle_init 5) = Returns (v, ft) /\
    result (interp speed_range v ft) = Returns ft_interp /\
    result (calculate_performance_indicators vehicle_init) = Returns p /\
    top_speed_spec vehicle_init ft_interp p.
Proof.
  apply (max_speed_last_grid_point vehicle_init 6.53 13.8).
  - reflexivity.
  - reflexivity.
  - discriminate.
  - reflexivity.
  - split; reflexivity.
Defined.

(** The configured vehicle: the interpolated curve of gear 5 stays at its
    last sample beyond 15.5 km/h, above the resistance up to the end of
    the grid, and the report is 220.0 km/h. *)
Example top_speed_of_configured_vehicle :
  exists p, result (calculate_performance_indicators vehicle_init) = Returns p
            /\ max_speed_kmh p = 220.0.
Proof.
  assert (Hms : max_speed vehicle_init = ret (nth 499 speed_range 0))
    by (vm_compute; reflexivity).
  destruct (available_force_returns vehicle_init 13.8)
    as (_ & _ & _ & force & _ & _ & _ & Hav);
    [reflexivity | discriminate | reflexivity |].
  destruct (indicators_return vehicle_init _ _ Hms Hav) as (p & -> & Hs & _).
  exists p. split; [reflexivity|]. rewrite Hs. vm_compute. reflexivity.
Qed.

(** C4 fails: an engine without torque never reaches the resistance on
    the grid, and without rolling resistance it reaches it at the grid
    speed 0 only; the two reports are the same dictionary, with the top
    speed 0 and no flag. *)
Lemma no_flag_for_no_intersection :
  result (intersection_idx stalled) = Returns [] /\
  result (intersection_idx frictionless) = Returns [0%nat] /\
  calculate_performance_indicators stalled =
    calculate_performance_indicators frictionless /\
  exists p, result (calculate_performance_indicators stalled) = Returns p /\
            max_speed_kmh p == 0.
Proof.
  assert (Hs : max_speed stalled = ret 0) by (vm_compute; reflexivity).
  assert (Hf : max_speed frictionless = ret (nth 0 speed_range 0))
    by (vm_compute; reflexivity).
  assert (Has : exists q, available_force stalled = ret q
                          /\ Qltb 0 q = false)
    by (eexists; split; vm_compute; reflexivity).
  assert (Haf : exists q, available_force frictionless = ret q
                          /\ Qltb 0 q = false)
    by (eexists; split; vm_compute; reflexivity).
  destruct Has as (qs & Has & Hqs). destruct Haf as (qf & Haf & Hqf).
  split; [vm_compute; reflexivity|].
  split; [vm_compute; reflexivity|].
  unfold calculate_performance_indicators.
  rewrite Hs, Hf, Has, Haf, !bind_ret.
  unfold max_grade. rewrite Hqs, Hqf.
  split; [reflexivity|].
  eexists. split; reflexivity.
Qed.

(** C7: the gradeability entries are computed from the tractive force of
    gear 1 at the sample of its curve nearest to 10 km/h (the first one on
    a tie), less the resistance at 10 km/h.  When that force is positive,
    its quotient by [m g] is clamped into [[0, 0.5]] and the angle is the
    arcsine of the result in degrees, the percentage a hundred times its
    tangent, both rounded to one decimal; otherwise both entries are 0.
    The call returns, and the angle entry never exceeds 30 degrees,
    however large the tractive force. *)
Theorem gradeability_nearest_sample_clamped (self : Vehicle) (ig5 ig1 : Q) :
  result (getitem (gear_ratios self) 5) = Returns ig5 ->
  result (getitem (gear_ratios self) 1) = Returns ig1 ->
  engine_speed self <> [] ->
  length (engine_torque self) = length (engine_speed self) ->
  curve_contract self ig1 ->
  exists v ft idx force p,
    result (calculate_tractive_force self 1) = Returns (v, ft) /\
    nearest_sample v 10 idx /\
    nth_error ft idx = Some force /\
    result (calculate_performance_indicators self) = Returns p /\
    gradeability_spec self
      (force - total (calculate_resistance_force self 10)) p.
Proof.
  intros Hg5 Hg1 Hne Hlen _.
  destruct (max_speed_scan self ig5 Hg5 Hne Hlen)
    as (_ & _ & ft_interp & _ & _ & _ & Hms).
  destruct (available_force_returns self ig1 Hg1 Hne Hlen)
    as (v & ft & idx & force & Htf & Hnear & Hforce & Hav).
  set (avail := force - total (calculate_resistance_force self 10)) in *.
  assert (Hp : exists p,
    calculate_performance_indicators self = ret p /\
    max_grade_deg p = round1_R (fst (max_grade self avail)) /\
    max_grade_percent p = round1_R (snd (max_grade self avail))).
  { destruct (rev (where_ge ft_interp (resistance_total self)));
      destruct (indicators_return self _ _ Hms Hav) as (p & Hp & _ & Hd & Hpc);
      eauto. }
  destruct Hp as (p & Hp & Hdeg & Hpct).
  exists v, ft, idx, force, p.
  rewrite Htf, Hp. repeat (split; [reflexivity || assumption|]).
  unfold gradeability_spec. rewrite Hdeg, Hpct. unfold max_grade.
  destruct (Qltb 0 avail) eqn:Hpos; cbn [fst snd].
  - apply Qltb_lt in Hpos. split; [|split].
    + apply round1_R_le_30. apply asin_degrees_le_30.
      apply Q2R_sin_theta_bounds.
    + intros Hle. exfalso. apply (Qlt_not_le _ _ Hpos Hle).
    + intros _. split; [apply sin_theta_bounds|].
      split; [apply sin_theta_clamp|]. split; reflexivity.
  - apply Qltb_ge in Hpos. rewrite round1_R_0.
    split; [lra|]. split; [auto|].
    intros Hlt. exfalso. apply (Qlt_not_le _ _ Hlt Hpos).
Qed.

Lemma gradeability_nearest_sample_clamped_witness :
  exists v ft idx force p,
    result (calculate_tractive_force vehicle_init 1) = Returns (v, ft) /\
    nearest_sample v 10 idx /\
    nth_error ft idx = Some force /\
    result (calculate_performance_indicators vehicle_init) = Returns p /\
    gradeability_spec vehicle_init
      (force - total (calculate_resistance_force vehicle_init 10)) p.
Proof.
  apply (gradeability_nearest_sample_clamped vehicle_init 6.53 13.8).
  - reflexivity.
  - reflexivity.
  - discriminate.
  - reflexivity.
  - split; reflexivity.
Defined.

(** An engine torque of a million kN·m reports exactly 30 degrees. *)
Example huge_tractive_force_gives_30_degrees :
  exists p, result (calculate_performance_indicators overpowered) = Returns p
            /\ max_grade_deg p = 30%R.
Proof.
  assert (Hms : exists ms, max_speed overpowered = ret ms)
    by (eexists; vm_compute; reflexivity).
  assert (Hav : exists a, available_force overpowered = ret a /\
                          Qltb 0 a = true /\ sin_theta overpowered a = 0.5)
    by (eexists; repeat split; vm_compute; reflexivity).
  destruct Hms as (ms & Hms). destruct Hav as (a & Hav & Hpos & Hs).
  destruct (indicators_return overpowered _ _ Hms Hav) as (p & -> & _ & Hd & _).
  exists p. split; [reflexivity|]. rewrite Hd.
  unfold max_grade. rewrite Hpos, Hs. cbn [fst].
  replace (Q2R 0.5) with (1 / 2)%R by (unfold Q2R; simpl; lra).
  rewrite asin_half.
  replace (PI / 6 * 180 / PI)%R with 30%R
    by (pose proof PI_RGT_0; field; lra).
  apply round1_R_30.
Qed.

(** * Further properties *)

(** ** More on comparisons *)

Lemma Qltb_wd_iff (a b a' b' : Q) :
  (a < b <-> a' < b') -> Qltb a b = Qltb a' b'.
Proof.
  intros H. destruct (Qltb a' b') eqn:E.
  - apply Qltb_lt. apply H. apply Qltb_lt. exact E.
  - destruct (Qltb a b) eqn:E'; [|reflexivity].
    apply Qltb_lt in E'. apply H in E'. apply Qltb_lt in E'. congruence.
Qed.

(** ** The two load models on any calculator *)

Lemma pydiv_zero (a b : Q) : b == 0 -> pydiv a b = raise ZeroDivisionError.
Proof.
  intros Hb. unfold pydiv. apply Qeq_bool_iff in Hb. rewrite Hb. reflexivity.
Qed.

Lemma calculate_axle_loads_sample (self : Calculator) (d : Q) :
  ~ 2 * (L1 self + 2 * L2 self + L3 self) == 0 ->
  exists s,
    result (Calculate.calculate_axle_loads self d) = Returns s /\
    CalculateNew.calculate_axle_loads_old self d = ret s /\
    cg_position s = d /\ cg_absolute s = axle2 self + d /\
    axle3_load s =
      total_weight self * (L1 self + 2 * d)
      / (2 * (L1 self + 2 * L2 self + L3 self)) /\
    axle4_load s = axle3_load s /\
    axle1_load s = (total_weight self - 2 * axle3_load s) / 2 /\
    axle2_load s = axle1_load s /\
    front_total s = 2 * axle1_load s /\
    rear_total s = 2 * axle3_load s.
Proof.
  intros Hden.
  unfold Calculate.calculate_axle_loads, CalculateNew.calculate_axle_loads_old.
  rewrite (pydiv_nonzero _ _ Hden), !bind_ret.
  eexists. split.
  - match goal with |- context [if ?c then _ else _] => destruct c end;
      reflexivity.
  - repeat split.
Qed.

(** X1: the equal-pair computations of the two scripts have the same
    outcome on every calculator and offset.  They raise
    [ZeroDivisionError] exactly when [2 (L1 + 2 L2 + L3)] is zero, and
    otherwise return the same loads; no other exception occurs. *)
Theorem equal_pair_outcome (self : Calculator) (d : Q) :
  match result (Calculate.calculate_axle_loads self d) with
  | Raises e =>
      e = ZeroDivisionError /\
      2 * (L1 self + 2 * L2 self + L3 self) == 0 /\
      result (CalculateNew.calculate_axle_loads_old self d)
        = Raises ZeroDivisionError
  | Returns s =>
      ~ 2 * (L1 self + 2 * L2 self + L3 self) == 0 /\
      result (CalculateNew.calculate_axle_loads_old self d) = Returns s
  end.
Proof.
  destruct (Qeq_dec (2 * (L1 self + 2 * L2 self + L3 self)) 0) as [Hz|Hden].
  - unfold Calculate.calculate_axle_loads,
      CalculateNew.calculate_axle_loads_old.
    rewrite (pydiv_zero _ _ Hz). cbn. repeat split. exact Hz.
  - destruct (calculate_axle_loads_sample self d Hden) as (s & -> & -> & _).
    split; [exact Hden | reflexivity].
Qed.

(** X2: on a calculator whose axle positions are the running sums of its
    spacings, the loads of the equal-pair model balance the weight and
    have no moment about the centre of gravity. *)
Theorem equal_pair_equilibrium (self : Calculator) (d : Q) :
  consistent self ->
  ~ 2 * (L1 self + 2 * L2 self + L3 self) == 0 ->
  exists s,
    result (Calculate.calculate_axle_loads self d) = Returns s /\
    result (CalculateNew.calculate_axle_loads_old self d) = Returns s /\
    loads_sum s == total_weight self /\
    moment self s == 0.
Proof.
  intros (Ha1 & Ha2 & Ha3 & Ha4) Hden.
  destruct (calculate_axle_loads_sample self d Hden)
    as (s & H1 & H2 & _ & Hcg & H3 & H4 & Hx & Hx2 & _).
  exists s. rewrite H2. split; [exact H1|]. split; [reflexivity|].
  assert (Hden' : ~ L1 self + 2 * L2 self + L3 self == 0).
  { intros E. apply Hden. rewrite E. reflexivity. }
  unfold loads_sum, moment. rewrite Hcg, H4, Hx2, Hx, H3, Ha1, Ha2, Ha3, Ha4.
  split; field; exact Hden'.
Qed.

Lemma equal_pair_equilibrium_witness :
  exists s,
    result (Calculate.calculate_axle_loads init 1200) = Returns s /\
    result (CalculateNew.calculate_axle_loads_old init 1200) = Returns s /\
    loads_sum s == total_weight init /\
    moment init s == 0.
Proof.
  apply (equal_pair_equilibrium init 1200).
  - repeat split.
  - discriminate.
Defined.

Lemma new_model_sample (self : Calculator) (d : Q) :
  CalculateNew.eps <= Qabs (CalculateNew.denominator self d) ->
  let S1 := CalculateNew.S1 self d in
  let S2 := CalculateNew.S2 self d in
  let D := CalculateNew.denominator self d in
  let W := total_weight self in
  let c := axle2 self + d in
  ~ D == 0 /\
  exists s,
    CalculateNew.calculate_axle_loads_new_model self d = ret s /\
    cg_position s = d /\ cg_absolute s = c /\
    axle1_load s = W * (S2 - S1 * (axle1 self - c)) / D /\
    axle2_load s = W * (S2 - S1 * (axle2 self - c)) / D /\
    axle3_load s = W * (S2 - S1 * (axle3 self - c)) / D /\
    axle4_load s = W * (S2 - S1 * (axle4 self - c)) / D /\
    front_total s = axle1_load s + axle2_load s /\
    rear_total s = axle3_load s + axle4_load s.
Proof.
  intros Hnd S1 S2 D W c.
  assert (HD : ~ D == 0).
  { intros E. subst D. rewrite E in Hnd.
    apply (Qle_not_lt _ _ Hnd). reflexivity. }
  split; [exact HD|].
  unfold CalculateNew.calculate_axle_loads_new_model.
  change (4 * CalculateNew.S2 self d - CalculateNew.S1 self d ^ 2) with D.
  apply Qltb_ge in Hnd. fold D in Hnd. rewrite Hnd.
  rewrite !(pydiv_nonzero _ _ HD), !bind_ret.
  eexists. repeat split.
Qed.

(** X3: wherever the rigid-frame denominator is not degenerate, on any
    calculator, the rigid-frame computation returns without a warning
    loads that balance the weight and have no moment about the centre of
    gravity. *)
Theorem rigid_frame_equilibrium (self : Calculator) (d : Q) :
  CalculateNew.eps <= Qabs (CalculateNew.denominator self d) ->
  exists s,
    CalculateNew.calculate_axle_loads_new_model self d = ret s /\
    loads_sum s == total_weight self /\
    moment self s == 0.
Proof.
  intros Hnd.
  destruct (new_model_sample self d Hnd)
    as (HD & s & Hs & _ & Hc & H1 & H2 & H3 & H4 & _).
  exists s. split; [exact Hs|].
  unfold loads_sum, moment. rewrite Hc, H1, H2, H3, H4.
  set (D := CalculateNew.denominator self d) in *.
  assert (ED : D == 4 * CalculateNew.S2 self d - CalculateNew.S1 self d ^ 2)
    by reflexivity.
  split.
  - field_simplify_eq; [|exact HD]. rewrite ED.
    unfold CalculateNew.S1, CalculateNew.S2, CalculateNew.sum,
      CalculateNew.d_list.
    cbn [map fold_left]. ring.
  - field_simplify_eq; [|exact HD].
    unfold CalculateNew.S1, CalculateNew.S2, CalculateNew.sum,
      CalculateNew.d_list.
    cbn [map fold_left]. ring.
Qed.

Lemma rigid_frame_equilibrium_witness :
  exists s,
    CalculateNew.calculate_axle_loads_new_model init (-300) = ret s /\
    loads_sum s == total_weight init /\
    moment init s == 0.
Proof.
  apply (rigid_frame_equilibrium init (-300)). discriminate.
Defined.

(** X4: the rigid-frame computation prints its warning exactly when the
    denominator is degenerate, and the only exception it can raise is the
    [ZeroDivisionError] of the fallback, on a degenerate denominator
    together with a zero equal-pair denominator. *)
Theorem rigid_frame_outcome (self : Calculator) (d : Q) :
  stdout (CalculateNew.calculate_axle_loads_new_model self d) =
    (if Qltb (Qabs (CalculateNew.denominator self d)) CalculateNew.eps
     then [WarnDegenerate d] else []) /\
  match result (CalculateNew.calculate_axle_loads_new_model self d) with
  | Raises e =>
      e = ZeroDivisionError /\
      Qabs (CalculateNew.denominator self d) < CalculateNew.eps /\
      2 * (L1 self + 2 * L2 self + L3 self) == 0
  | Returns s =>
      CalculateNew.eps <= Qabs (CalculateNew.denominator self d) \/
      ~ 2 * (L1 self + 2 * L2 self + L3 self) == 0
  end.
Proof.
  destruct (Qltb (Qabs (CalculateNew.denominator self d)) CalculateNew.eps)
    eqn:Hdeg.
  - assert (E : CalculateNew.calculate_axle_loads_new_model self d =
      (print (WarnDegenerate d) ;;;
       CalculateNew.calculate_axle_loads_old self d)).
    { unfold CalculateNew.calculate_axle_loads_new_model.
      change (4 * CalculateNew.S2 self d - CalculateNew.S1 self d ^ 2)
        with (CalculateNew.denominator self d).
      rewrite Hdeg. reflexivity. }
    rewrite E. apply Qltb_lt in Hdeg.
    destruct (Qeq_dec (2 * (L1 self + 2 * L2 self + L3 self)) 0) as [Hz|Hden].
    + unfold CalculateNew.calculate_axle_loads_old.
      rewrite (pydiv_zero _ _ Hz). cbn. repeat split; assumption.
    + destruct (calculate_axle_loads_sample self d Hden) as (s & _ & -> & _).
      cbn. split; [reflexivity | right; exact Hden].
  - apply Qltb_ge in Hdeg.
    destruct (new_model_sample self d Hdeg) as (_ & s & -> & _).
    cbn. split; [reflexivity | left; exact Hdeg].
Qed.

(** X5: when the centre of gravity is at the centroid of the axle
    positions ([S1 = 0]) the rigid-frame model loads the four axles
    evenly, a quarter of the weight each. *)
Theorem rigid_frame_even_at_centroid (self : Calculator) (d : Q) :
  CalculateNew.eps <= Qabs (CalculateNew.denominator self d) ->
  CalculateNew.S1 self d == 0 ->
  exists s,
    CalculateNew.calculate_axle_loads_new_model self d = ret s /\
    axle1_load s == total_weight self / 4 /\
    axle2_load s == total_weight self / 4 /\
    axle3_load s == total_weight self / 4 /\
    axle4_load s == total_weight self / 4.
Proof.
  intros Hnd HS1.
  destruct (new_model_sample self d Hnd)
    as (HD & s & Hs & _ & _ & H1 & H2 & H3 & H4 & _).
  exists s. split; [exact Hs|].
  rewrite H1, H2, H3, H4.
  assert (ED : CalculateNew.denominator self d == 4 * CalculateNew.S2 self d).
  { unfold CalculateNew.denominator. rewrite HS1. ring. }
  assert (HS2 : ~ CalculateNew.S2 self d == 0).
  { intros E. apply HD. rewrite ED, E. reflexivity. }
  rewrite ED, HS1.
  repeat split; field; exact HS2.
Qed.

Lemma rigid_frame_even_at_centroid_witness :
  exists s,
    CalculateNew.calculate_axle_loads_new_model init 2300 = ret s /\
    axle1_load s == total_weight init / 4 /\
    axle2_load s == total_weight init / 4 /\
    axle3_load s == total_weight init / 4 /\
    axle4_load s == total_weight init / 4.
Proof.
  apply (rigid_frame_even_at_centroid init 2300).
  - discriminate.
  - reflexivity.
Defined.

(** ** The configured calculator *)

Lemma equal_pair_split (d : Q) :
  exists s,
    Calculate.calculate_axle_loads init d =
      ((if negative_load d then [WarnNegativeLoad d] else []), Returns s) /\
    CalculateNew.calculate_axle_loads_old init d = ret s /\
    cg_position s = d /\
    axle1_load s == (24700 # 12800) * (5500 - d) /\
    axle3_load s == (24700 # 12800) * (d + 900) /\
    split_law k_equal_pair s.
Proof.
  destruct (calculate_axle_loads_sample init d equal_pair_denominator)
    as (s & _ & Hold & Hd & _ & H3 & _ & H1 & _ & Hf & Hr).
  assert (E3 : axle3_load s == (24700 # 12800) * (d + 900)).
  { rewrite H3. cbn [total_weight L1 L2 L3 init]. field. }
  assert (E1 : axle1_load s == (24700 # 12800) * (5500 - d)).
  { rewrite H1, E3. cbn [total_weight init]. field. }
  exists s. split; [|split; [exact Hold|]].
  - unfold Calculate.calculate_axle_loads.
    rewrite (pydiv_nonzero _ _ equal_pair_denominator), bind_ret.
    unfold CalculateNew.calculate_axle_loads_old in Hold.
    rewrite (pydiv_nonzero _ _ equal_pair_denominator), bind_ret in Hold.
    injection Hold as Hold. subst s. cbn [axle1_load axle3_load] in E1, E3.
    match goal with
    | |- context [if ?c then _ else _] =>
        replace c with (negative_load d)
    end.
    + destruct (negative_load d); reflexivity.
    + unfold negative_load. rewrite orb_comm. f_equal.
      * apply Qltb_wd_iff. rewrite E1. split; intros H; lra.
      * apply Qltb_wd_iff. rewrite E3. split; intros H; lra.
  - split; [exact Hd|]. split; [exact E1|]. split; [exact E3|].
    unfold split_law, k_equal_pair. rewrite Hf, Hr, E1, E3, Hd.
    split; field.
Qed.

Lemma rigid_frame_split (d : Q) :
  exists s,
    CalculateNew.calculate_axle_loads_new_model init d = ret s /\
    cg_position s = d /\ split_law k_rigid_frame s.
Proof.
  assert (Hnd : CalculateNew.eps <= Qabs (CalculateNew.denominator init d))
    by (apply Qltb_ge, not_degenerate_init).
  destruct (new_model_sample init d Hnd)
    as (HD & s & Hs & Hd & _ & H1 & H2 & H3 & H4 & Hf & Hr).
  exists s. split; [exact Hs|]. split; [exact Hd|].
  unfold split_law, k_rigid_frame.
  rewrite Hf, Hr, H1, H2, H3, H4, Hd.
  pose proof (denominator_init d) as ED.
  set (D := CalculateNew.denominator init d) in *.
  assert (HS : D == 4 * CalculateNew.S2 init d - CalculateNew.S1 init d ^ 2)
    by reflexivity.
  cbn [total_weight axle1 axle2 axle3 axle4 init].
  split; field_simplify_eq; try exact HD; rewrite ED;
    unfold CalculateNew.S1, CalculateNew.S2, CalculateNew.sum,
      CalculateNew.d_list;
    cbn [map fold_left axle1 axle2 axle3 axle4 init]; ring.
Qed.

Lemma slopes : 0 < k_rigid_frame /\ k_rigid_frame < k_equal_pair.
Proof. split; reflexivity. Qed.

Lemma split_law_balance (k : Q) (s : LoadSample) :
  0 < k -> split_law k s ->
  balance_diff s == 2 * k * Qabs (cg_position s - 2300).
Proof.
  intros Hk [Hf Hr]. unfold balance_diff. rewrite Hf, Hr.
  setoid_replace (12350 - k * (cg_position s - 2300)
                  - (12350 + k * (cg_position s - 2300)))
    with (- ((2 * k) * (cg_position s - 2300))) by ring.
  rewrite Qabs_opp, Qabs_Qmult, (Qabs_pos (2 * k)) by lra. reflexivity.
Qed.

(** X6: at the configured constants [calculate_axle_loads] warns of a
    negative load exactly for offsets below -900 or above 5500, where the
    rear pair, respectively the front pair, would carry less than nothing;
    it returns the sample in either case. *)
Theorem negative_load_warning (d : Q) :
  exists s,
    Calculate.calculate_axle_loads init d =
      ((if negative_load d then [WarnNegativeLoad d] else []), Returns s) /\
    (axle3_load s < 0 <-> d < -900) /\
    (axle1_load s < 0 <-> 5500 < d) /\
    (negative_load d = true <-> d < -900 \/ 5500 < d).
Proof.
  destruct (equal_pair_split d) as (s & Hs & _ & _ & E1 & E3 & _).
  exists s. split; [exact Hs|].
  split; [rewrite E3; split; intros H; lra|].
  split; [rewrite E1; split; intros H; lra|].
  unfold negative_load. rewrite orb_true_iff, !Qltb_lt. reflexivity.
Qed.

(** X7: at the configured constants the front total falls and the rear
    total rises linearly with the offset in both models, each being half
    the weight at the offset 2300; the slope is 24700/6400 kg per mm in
    the equal-pair model and the smaller 24700*25600/174240000 in the
    rigid-frame model. *)
Theorem load_split_affine (d : Q) :
  (exists s, result (Calculate.calculate_axle_loads init d) = Returns s
             /\ cg_position s = d /\ split_law k_equal_pair s) /\
  (exists s, result (CalculateNew.calculate_axle_loads_old init d) = Returns s
             /\ cg_position s = d /\ split_law k_equal_pair s) /\
  (exists s, result (CalculateNew.calculate_axle_loads_new_model init d)
               = Returns s
             /\ cg_position s = d /\ split_law k_rigid_frame s) /\
  0 < k_rigid_frame < k_equal_pair.
Proof.
  destruct (equal_pair_split d) as (s & Hs & Hold & Hd & _ & _ & Hlaw).
  destruct (rigid_frame_split d) as (s' & Hs' & Hd' & Hlaw').
  split; [exists s; rewrite Hs; auto|].
  split; [exists s; rewrite Hold; auto|].
  split; [exists s'; rewrite Hs'; auto|].
  exact slopes.
Qed.

(** X8: for every offset the rigid-frame model splits the weight between
    front and rear at least as evenly as the equal-pair model, and the two
    differences between front and rear are zero together, exactly at the
    offset 2300. *)
Theorem rigid_frame_less_sensitive (d : Q) :
  exists s_new s_old,
    result (CalculateNew.calculate_axle_loads_new_model init d)
      = Returns s_new /\
    result (CalculateNew.calculate_axle_loads_old init d) = Returns s_old /\
    balance_diff s_new <= balance_diff s_old /\
    (balance_diff s_new == 0 <-> d == 2300) /\
    (balance_diff s_old == 0 <-> d == 2300).
Proof.
  destruct (equal_pair_split d) as (s & _ & Hold & Hd & _ & _ & Hlaw).
  destruct (rigid_frame_split d) as (s' & Hs' & Hd' & Hlaw').
  destruct slopes as [Hk Hkk].
  assert (Hk' : 0 < k_equal_pair) by (eapply Qlt_trans; eauto).
  pose proof (split_law_balance _ _ Hk' Hlaw) as Hb.
  pose proof (split_law_balance _ _ Hk Hlaw') as Hb'.
  rewrite Hd in Hb. rewrite Hd' in Hb'.
  pose proof (Qabs_nonneg (d - 2300)) as Hn.
  assert (Hzero : forall k, 0 < k ->
            (2 * k * Qabs (d - 2300) == 0 <-> d == 2300)).
  { intros k Hk0. split.
    - intros E.
      assert (Ha : Qabs (d - 2300) == 0) by nra.
      pose proof (Qle_Qabs (d - 2300)) as Hu.
      pose proof (Qle_Qabs (- (d - 2300))) as Hl.
      rewrite Qabs_opp in Hl. lra.
    - intros E. rewrite E.
      setoid_replace (2300 - 2300) with 0 by ring.
      change (Qabs 0) with 0. ring. }
  exists s', s. rewrite Hs', Hold.
  split; [reflexivity|]. split; [reflexivity|].
  rewrite Hb, Hb'. split; [nra|]. split; apply Hzero; assumption.
Qed.

(** X9: moving the centre of gravity back takes load off the front pair
    and puts it on the rear pair, strictly, in every one of the three
    load functions at the configured constants. *)
Theorem front_falls_rear_rises (d1 d2 : Q) :
  d1 < d2 ->
  (exists s1 s2,
     result (Calculate.calculate_axle_loads init d1) = Returns s1 /\
     result (Calculate.calculate_axle_loads init d2) = Returns s2 /\
     front_total s2 < front_total s1 /\ rear_total s1 < rear_total s2) /\
  (exists s1 s2,
     result (CalculateNew.calculate_axle_loads_old init d1) = Returns s1 /\
     result (CalculateNew.calculate_axle_loads_old init d2) = Returns s2 /\
     front_total s2 < front_total s1 /\ rear_total s1 < rear_total s2) /\
  (exists s1 s2,
     result (CalculateNew.calculate_axle_loads_new_model init d1)
       = Returns s1 /\
     result (CalculateNew.calculate_axle_loads_new_model init d2)
       = Returns s2 /\
     front_total s2 < front_total s1 /\ rear_total s1 < rear_total s2).
Proof.
  intros Hlt.
  destruct (equal_pair_split d1) as (s1 & Hs1 & Ho1 & Hd1 & _ & _ & [Hf1 Hr1]).
  destruct (equal_pair_split d2) as (s2 & Hs2 & Ho2 & Hd2 & _ & _ & [Hf2 Hr2]).
  destruct (rigid_frame_split d1) as (n1 & Hn1 & He1 & [Hnf1 Hnr1]).
  destruct (rigid_frame_split d2) as (n2 & Hn2 & He2 & [Hnf2 Hnr2]).
  destruct slopes as [Hk Hkk].
  assert (Hk' : 0 < k_equal_pair) by (eapply Qlt_trans; eauto).
  rewrite Hd1 in *. rewrite Hd2 in *. rewrite He1 in *. rewrite He2 in *.
  split; [|split].
  - exists s1, s2. rewrite Hs1, Hs2. do 2 (split; [reflexivity|]).
    rewrite Hf1, Hf2, Hr1, Hr2. split; nra.
  - exists s1, s2. rewrite Ho1, Ho2. do 2 (split; [reflexivity|]).
    rewrite Hf1, Hf2, Hr1, Hr2. split; nra.
  - exists n1, n2. rewrite Hn1, Hn2. do 2 (split; [reflexivity|]).
    rewrite Hnf1, Hnf2, Hnr1, Hnr2. split; nra.
Qed.

Lemma front_falls_rear_rises_witness :
  exists s1 s2,
    result (CalculateNew.calculate_axle_loads_new_model init 0) = Returns s1 /\
    result (CalculateNew.calculate_axle_loads_new_model init 4800)
      = Returns s2 /\
    front_total s2 < front_total s1 /\ rear_total s1 < rear_total s2.
Proof.
  assert (H : 0 < 4800) by reflexivity.
  exact (proj2 (proj2 (front_falls_rear_rises 0 4800 H))).
Defined.

(** ** The extreme points *)

Lemma max_from_spec (key : LoadSample -> Q) (rest pre : list LoadSample)
    (i : nat) (e : LoadSample) :
  first_maximum key pre i e ->
  exists i',
    first_maximum key (pre ++ rest) i' (max_from key e rest).
Proof.
  revert pre i e.
  induction rest as [|r rest IH]; intros pre i e (Hnth & Hmax & Hfirst).
  - exists i. rewrite app_nil_r. repeat split; auto.
  - cbn [max_from].
    replace (pre ++ r :: rest) with ((pre ++ [r]) ++ rest)
      by (rewrite <- app_assoc; reflexivity).
    destruct (Qltb (key e) (key r)) eqn:E.
    + apply Qltb_lt in E.
      apply (IH (pre ++ [r]) (length pre) r).
      split; [|split].
      * rewrite nth_error_app2, Nat.sub_diag by lia. reflexivity.
      * intros r' [Hin | [<- | []]]%in_app_or.
        -- apply Qlt_le_weak. apply Qle_lt_trans with (key e); auto.
        -- apply Qle_refl.
      * intros j r' Hj Hr'. rewrite nth_error_app1 in Hr' by exact Hj.
        apply Qle_lt_trans with (key e); [|exact E].
        apply Hmax. eapply nth_error_In; eauto.
    + apply Qltb_ge in E.
      apply (IH (pre ++ [r]) i e).
      assert (Hi : (i < length pre)%nat)
        by (apply nth_error_Some; rewrite Hnth; discriminate).
      split; [|split].
      * rewrite nth_error_app1 by exact Hi. exact Hnth.
      * intros r' [Hin | [<- | []]]%in_app_or; auto.
      * intros j r' Hj Hr'. rewrite nth_error_app1 in Hr' by lia. eauto.
Qed.

Lemma py_max_spec (key : LoadSample -> Q) (results : list LoadSample) :
  results <> [] ->
  exists i e, py_max key results = ret e /\ first_maximum key results i e.
Proof.
  destruct results as [|r rest]; [congruence|]. intros _.
  destruct (max_from_spec key rest [r] 0 r) as (i & Hi).
  - split; [reflexivity|]. split.
    + intros r' [<- | []]. apply Qle_refl.
    + intros j r' Hj. lia.
  - exists i, (max_from key r rest). split; [reflexivity | exact Hi].
Qed.

(** X10: [find_special_points] raises [ValueError] on an empty list of
    results, from its [max] calls, although its equilibrium search alone
    leaves the empty list without a point.  On any other list it reports
    the first sample of greatest front total and the first sample of
    greatest rear total. *)
Theorem find_special_points_extremes (results : list LoadSample) :
  match results with
  | [] =>
      find_equilibrium results = None /\
      find_special_points results = raise ValueError
  | _ :: _ =>
      exists sp i j,
        find_special_points results = ret sp /\
        equilibrium_point sp = find_equilibrium results /\
        first_maximum front_total results i (max_front sp) /\
        first_maximum rear_total results j (max_rear sp)
  end.
Proof.
  destruct results as [|r rest]; [split; reflexivity|].
  destruct (py_max_spec front_total (r :: rest)) as (i & e & He & Hi);
    [discriminate|].
  destruct (py_max_spec rear_total (r :: rest)) as (j & e' & He' & Hj);
    [discriminate|].
  eexists _, i, j. unfold find_special_points.
  rewrite He, bind_ret, He', bind_ret.
  split; [reflexivity|]. cbn [equilibrium_point max_front max_rear].
  auto.
Qed.

(** ** Sweeps and what follows them *)

Lemma for_append_run {X} (calc : X -> py LoadSample)
    (out : X -> list message) (P : X -> LoadSample -> Prop) (xs : list X) :
  (forall x, exists s, calc x = (out x, Returns s) /\ P x s) ->
  exists l, for_append calc xs = (flat_map out xs, Returns l)
            /\ Forall2 P xs l.
Proof.
  intros Hf. induction xs as [|x xs (l & Hl & HP)].
  - exists []. split; [reflexivity | constructor].
  - destruct (Hf x) as (s & Hs & Hx).
    exists (s :: l). cbn [for_append flat_map]. rewrite Hs, Hl.
    split; [|constructor; assumption].
    cbn. rewrite app_nil_r. reflexivity.
Qed.

Lemma flat_map_map {X Y Z'} (h : X -> Y) (out : Y -> list Z') (xs : list X) :
  flat_map (fun x => out (h x)) xs = flat_map out (map h xs).
Proof.
  induction xs as [|x xs IH]; [reflexivity|].
  cbn [flat_map map]. now rewrite IH.
Qed.

Lemma sweep_run (calc : Q -> py LoadSample) (out : Q -> list message)
    (P : Q -> LoadSample -> Prop) (start stop step : Z) :
  (forall d, exists s, calc d = (out d, Returns s) /\ P d s /\
                       cg_position s = d) ->
  step <> 0%Z ->
  exists l,
    (cg_positions <- arange start (stop + step) step ;;
     for_append (fun cg_pos => calc (inject_Z cg_pos)) cg_positions)
      = (flat_map out (sweep_offsets start stop step), Returns l) /\
    Forall2 P (sweep_offsets start stop step) l /\
    map cg_position l = sweep_offsets start stop step.
Proof.
  intros Hf Hstep. unfold arange.
  destruct (Z.eqb_spec step 0) as [|_]; [contradiction|].
  rewrite bind_ret.
  set (zs := map (fun i => (start + Z.of_nat i * step)%Z)
                 (seq 0 (arange_len start (stop + step) step))).
  assert (Hzs : sweep_offsets start stop step = map inject_Z zs)
    by (unfold sweep_offsets, zs; rewrite map_map; reflexivity).
  destruct (for_append_run (fun cg_pos => calc (inject_Z cg_pos))
              (fun z => out (inject_Z z))
              (fun z s => P (inject_Z z) s /\ cg_position s = inject_Z z) zs)
    as (l & Hl & HP).
  { intros z. destruct (Hf (inject_Z z)) as (s & Hs & HPs & Hd). eauto. }
  exists l. rewrite Hl, Hzs. clearbody zs. clear Hl Hzs.
  split; [|split].
  - rewrite flat_map_map. reflexivity.
  - induction HP as [|z s zs l [HPs _] _ IH]; cbn [map]; constructor; auto.
  - induction HP as [|z s zs l [_ Hd] _ IH]; [reflexivity|].
    cbn [map]. now rewrite Hd, IH.
Qed.

Lemma Forall2_Forall_r {X Y} (P : X -> Y -> Prop) (Q' : Y -> Prop)
    (xs : list X) (ys : list Y) :
  (forall x y, P x y -> Q' y) -> Forall2 P xs ys -> Forall Q' ys.
Proof.
  intros H HP. induction HP; constructor; eauto.
Qed.

Lemma calculate_sweep_run (start stop step : Z) :
  step <> 0%Z ->
  exists l,
    Calculate.analyze_load_distribution init (start, stop) step =
      (map WarnNegativeLoad
           (filter negative_load (sweep_offsets start stop step)),
       Returns l) /\
    Forall (split_law k_equal_pair) l /\
    map cg_position l = sweep_offsets start stop step.
Proof.
  intros Hstep.
  destruct (sweep_run (Calculate.calculate_axle_loads init)
              (fun d => if negative_load d then [WarnNegativeLoad d] else [])
              (fun _ s => split_law k_equal_pair s) start stop step)
    as (l & Hl & HP & Hmap); [|exact Hstep|].
  { intros d. destruct (equal_pair_split d) as (s & Hs & _ & Hd & _ & _ & Hlaw).
    eauto. }
  exists l. unfold Calculate.analyze_load_distribution. cbn [fst snd].
  rewrite Hl. split; [|split; [|exact Hmap]].
  - f_equal. clear. induction (sweep_offsets start stop step) as [|o os IH];
      [reflexivity|].
    cbn [flat_map filter]. rewrite IH. destruct (negative_load o); reflexivity.
  - eapply Forall2_Forall_r; [|exact HP]. auto.
Qed.

Lemma new_sweep_run (start stop step : Z) :
  step <> 0%Z ->
  exists l,
    CalculateNew.analyze_load_distribution init (start, stop) step = ret l /\
    Forall (split_law k_rigid_frame) l /\
    map cg_position l = sweep_offsets start stop step.
Proof.
  intros Hstep.
  destruct (sweep_run (CalculateNew.calculate_axle_loads_new_model init)
              (fun _ => [])
              (fun _ s => split_law k_rigid_frame s) start stop step)
    as (l & Hl & HP & Hmap); [|exact Hstep|].
  { intros d. destruct (rigid_frame_split d) as (s & Hs & Hd & Hlaw). eauto. }
  exists l. unfold CalculateNew.analyze_load_distribution. cbn [fst snd].
  rewrite Hl. split; [|split; [|exact Hmap]].
  - f_equal. clear. induction (sweep_offsets start stop step) as [|o os IH];
      [reflexivity | exact IH].
  - eapply Forall2_Forall_r; [|exact HP]. auto.
Qed.









(** What [main] reports in the two scripts: balance at 2300, the greatest
    front total at 0 and the greatest rear total at 4800. *)
Example main_special_points :
  option_map (fun sp =>
      (option_map cg_position (equilibrium_point sp),
       cg_position (max_front sp), cg_position (max_rear sp)))
    (match result (find_special_points main_samples) with
     | Returns sp => Some sp | Raises _ => None end)
    = Some (Some 2300, 0, 4800) /\
  option_map (fun sp =>
      (option_map cg_position (equilibrium_point sp),
       cg_position (max_front sp), cg_position (max_rear sp)))
    (match result (find_special_points main_samples_new) with
     | Returns sp => Some sp | Raises _ => None end)
    = Some (Some 2300, 0, 4800).
Proof. split; vm_compute; reflexivity. Qed.

(** X14: on a valid range ([start <= end], [step > 0]) the sweep of
    either script returns [k + 1] samples, [k] the quotient of the length
    of the range by the step rounded up; the first is at the start, the
    last at [start + k * step], which is not below the end and less than a
    step beyond it, and is the end exactly when the step divides the
    length of the range. *)
Theorem sweep_covers_valid_range (start stop step : Z) :
  (0 < step)%Z -> (start <= stop)%Z ->
  let k := cdiv (stop - start) step in
  let shape (run : py (list LoadSample)) :=
    exists l,
      result run = Returns l /\
      length l = S (Z.to_nat k) /\
      option_map cg_position (hd_error l) = Some (inject_Z start) /\
      last (map cg_position l) 0 = inject_Z (start + k * step) in
  shape (Calculate.analyze_load_distribution init (start, stop) step) /\
  shape (CalculateNew.analyze_load_distribution init (start, stop) step) /\
  (stop <= start + k * step < stop + step)%Z /\
  (start + k * step = stop <-> (step | stop - start))%Z.
Proof.
  intros Hstep Hle k shape.
  destruct (sweep_last_offset start stop step Hstep Hle) as (Hlast & Hb & Hdiv).
  fold k in Hlast, Hb, Hdiv.
  pose proof (cdiv_bounds (stop - start) step Hstep) as Hk. fold k in Hk.
  assert (Hk0 : (0 <= k)%Z) by nia.
  assert (Hlen : length (sweep_offsets start stop step) = S (Z.to_nat k)).
  { unfold sweep_offsets, arange_len. rewrite length_map, length_seq.
    replace (stop + step - start)%Z with (stop - start + step)%Z by ring.
    rewrite cdiv_add by exact Hstep. fold k. lia. }
  assert (Hhd : hd_error (sweep_offsets start stop step)
                = Some (inject_Z start)).
  { unfold sweep_offsets.
    destruct (arange_len start (stop + step) step) eqn:E.
    - unfold sweep_offsets in Hlen. rewrite E in Hlen. discriminate.
    - cbn. rewrite Z.add_0_r. reflexivity. }
  assert (Hshape : forall run l,
            result run = Returns l ->
            map cg_position l = sweep_offsets start stop step -> shape run).
  { intros run l Hrun Hmap. exists l. split; [exact Hrun|].
    split; [rewrite <- (length_map cg_position), Hmap; exact Hlen|].
    split; [|rewrite Hmap; exact Hlast].
    rewrite <- Hmap in Hhd. destruct l; [discriminate|].
    cbn in *. congruence. }
  assert (Hnz : step <> 0%Z) by lia.
  destruct (calculate_sweep_run start stop step Hnz) as (l & E & _ & Hmap).
  destruct (new_sweep_run start stop step Hnz) as (l' & E' & _ & Hmap').
  split; [apply (Hshape _ l); [rewrite E; reflexivity | exact Hmap]|].
  split; [apply (Hshape _ l'); [rewrite E'; reflexivity | exact Hmap']|].
  split; assumption.
Qed.

Lemma sweep_covers_valid_range_witness :
  exists l,
    result (Calculate.analyze_load_distribution init (0, 4800)%Z 50%Z)
      = Returns l /\
    length l = 97%nat /\
    option_map cg_position (hd_error l) = Some 0 /\
    last (map cg_position l) 0 = 4800.
Proof.
  assert (H1 : (0 < 50)%Z) by reflexivity.
  assert (H2 : (0 <= 4800)%Z) by discriminate.
  exact (proj1 (sweep_covers_valid_range 0 4800 50 H1 H2)).
Defined.

(** ** The tractive curves *)

Lemma getitem_spec (d : list (nat * Q)) (key : nat) :
  (exists x, getitem d key = ret x /\ In (key, x) d) \/
  (getitem d key = raise KeyError /\ forall x, ~ In (key, x) d).
Proof.
  induction d as [|[k v] d IH]; cbn [getitem].
  - right. split; [reflexivity | intros x []].
  - destruct (Nat.eqb_spec k key) as [->|Hne].
    + left. exists v. split; [reflexivity | left; reflexivity].
    + destruct IH as [(x & Hx & Hin) | (Hraise & Hnone)].
      * left. exists x. split; [exact Hx | right; exact Hin].
      * right. split; [exact Hraise|].
        intros x [E | Hin]; [congruence | exact (Hnone x Hin)].
Qed.

(** X15: [calculate_tractive_force] raises [KeyError] exactly for a gear
    that the table does not hold and raises nothing else; for a gear of
    the table it returns one speed per engine speed and one force per
    engine torque. *)
Theorem calculate_tractive_force_outcome (self : Vehicle) (gear_name : nat) :
  stdout (calculate_tractive_force self gear_name) = [] /\
  match result (calculate_tractive_force self gear_name) with
  | Raises e =>
      e = KeyError /\ forall ig, ~ In (gear_name, ig) (gear_ratios self)
  | Returns (v, ft) =>
      (exists ig, In (gear_name, ig) (gear_ratios self)) /\
      length v = length (engine_speed self) /\
      length ft = length (engine_torque self)
  end.
Proof.
  destruct (getitem_spec (gear_ratios self) gear_name)
    as [(ig & Hig & Hin) | (Hraise & Hnone)].
  - assert (H : result (getitem (gear_ratios self) gear_name) = Returns ig)
      by (rewrite Hig; reflexivity).
    rewrite (calculate_tractive_force_returns self gear_name ig H).
    cbn. rewrite !length_map. eauto.
  - unfold calculate_tractive_force. rewrite Hraise. cbn. auto.
Qed.

(** X16: speed times force of a sample of a tractive curve is
    [0.377 n Ttq eta_T], whatever the gear: the curves of all gears carry
    the same power at the same engine point. *)
Theorem tractive_power_gear_independent (self : Vehicle) (gear_name : nat)
    (ig : Q) :
  result (getitem (gear_ratios self) gear_name) = Returns ig ->
  ~ r self == 0 ->
  ~ ig * final_drive_ratio self == 0 ->
  exists v ft,
    result (calculate_tractive_force self gear_name) = Returns (v, ft) /\
    forall i n Ttq,
      nth_error (engine_speed self) i = Some n ->
      nth_error (engine_torque self) i = Some Ttq ->
      exists v_i ft_i,
        nth_error v i = Some v_i /\ nth_error ft i = Some ft_i /\
        v_i * ft_i == 0.377 * n * Ttq * eta_T self.
Proof.
  intros Hig Hr Hratio.
  rewrite (calculate_tractive_force_returns self gear_name ig Hig).
  eexists _, _. split; [reflexivity|].
  intros i n Ttq Hn HT.
  rewrite !nth_error_map, Hn, HT. cbn [option_map].
  eexists _, _. split; [reflexivity|]. split; [reflexivity|].
  field. split; [exact Hr|].
  split; intros E; apply Hratio; rewrite E; ring.
Qed.

Lemma tractive_power_gear_independent_witness :
  exists v ft,
    result (calculate_tractive_force vehicle_init 16) = Returns (v, ft) /\
    forall i n Ttq,
      nth_error (engine_speed vehicle_init) i = Some n ->
      nth_error (engine_torque vehicle_init) i = Some Ttq ->
      exists v_i ft_i,
        nth_error v i = Some v_i /\ nth_error ft i = Some ft_i /\
        v_i * ft_i == 0.377 * n * Ttq * eta_T vehicle_init.
Proof.
  apply (tractive_power_gear_independent vehicle_init 16 0.84).
  - reflexivity.
  - discriminate.
  - discriminate.
Defined.

(** X17: of two gears with positive ratios the one with the greater ratio
    is the slower and the stronger at every engine point of positive speed
    and torque (positive radius, final drive ratio and efficiency). *)
Theorem lower_gear_slower_and_stronger (self : Vehicle) (low high : nat)
    (ig_low ig_high : Q) :
  result (getitem (gear_ratios self) low) = Returns ig_low ->
  result (getitem (gear_ratios self) high) = Returns ig_high ->
  0 < ig_high -> ig_high < ig_low ->
  0 < r self -> 0 < final_drive_ratio self -> 0 < eta_T self ->
  exists v_low ft_low v_high ft_high,
    result (calculate_tractive_force self low) = Returns (v_low, ft_low) /\
    result (calculate_tractive_force self high) = Returns (v_high, ft_high) /\
    (forall i n, nth_error (engine_speed self) i = Some n -> 0 < n ->
       exists a b, nth_error v_low i = Some a /\ nth_error v_high i = Some b
                   /\ a < b) /\
    (forall i Ttq, nth_error (engine_torque self) i = Some Ttq -> 0 < Ttq ->
       exists a b, nth_error ft_low i = Some a /\ nth_error ft_high i = Some b
                   /\ b < a).
Proof.
  intros Hlow Hhigh Hh Hlt Hr Hi0 Heta.
  assert (Hl : 0 < ig_low) by exact (Qlt_trans _ _ _ Hh Hlt).
  rewrite (calculate_tractive_force_returns self low ig_low Hlow).
  rewrite (calculate_tractive_force_returns self high ig_high Hhigh).
  eexists _, _, _, _. split; [reflexivity|]. split; [reflexivity|].
  split.
  - intros i n Hn Hpos. rewrite !nth_error_map, Hn. cbn [option_map].
    eexists _, _. split; [reflexivity|]. split; [reflexivity|].
    apply Qlt_minus_iff.
    setoid_replace
      (0.377 * n * r self / (ig_high * final_drive_ratio self)
       + - (0.377 * n * r self / (ig_low * final_drive_ratio self)))
      with (0.377 * n * r self * (ig_low - ig_high)
            * / (ig_high * ig_low * final_drive_ratio self))
      by (field; repeat split; lra).
    apply Qmult_lt_0_compat.
    + repeat apply Qmult_lt_0_compat; lra.
    + apply Qinv_lt_0_compat. repeat apply Qmult_lt_0_compat; assumption.
  - intros i Ttq HT Hpos. rewrite !nth_error_map, HT. cbn [option_map].
    eexists _, _. split; [reflexivity|]. split; [reflexivity|].
    apply Qlt_minus_iff.
    setoid_replace
      (Ttq * ig_low * final_drive_ratio self * eta_T self / r self
       + - (Ttq * ig_high * final_drive_ratio self * eta_T self / r self))
      with (Ttq * (ig_low - ig_high) * final_drive_ratio self * eta_T self
            * / r self)
      by (field; lra).
    apply Qmult_lt_0_compat.
    + repeat apply Qmult_lt_0_compat; lra.
    + apply Qinv_lt_0_compat. assumption.
Qed.

Lemma lower_gear_slower_and_stronger_witness :
  exists v_low ft_low v_high ft_high,
    result (calculate_tractive_force vehicle_init 1)
      = Returns (v_low, ft_low) /\
    result (calculate_tractive_force vehicle_init 5)
      = Returns (v_high, ft_high) /\
    (forall i n, nth_error (engine_speed vehicle_init) i = Some n -> 0 < n ->
       exists a b, nth_error v_low i = Some a /\ nth_error v_high i = Some b
                   /\ a < b) /\
    (forall i Ttq,
       nth_error (engine_torque vehicle_init) i = Some Ttq -> 0 < Ttq ->
       exists a b, nth_error ft_low i = Some a /\ nth_error ft_high i = Some b
                   /\ b < a).
Proof.
  apply (lower_gear_slower_and_stronger vehicle_init 1 5 13.8 6.53);
    reflexivity.
Defined.

(** ** Resistance against speed *)

(** X18: with a non-negative drag factor [Cd A rho] the total resistance
    is never below the rolling resistance and grows with the magnitude of
    the speed. *)
Theorem resistance_grows_with_speed (self : Vehicle) (v1 v2 : Q) :
  0 <= Cd self * A self * rho self ->
  Qabs v1 <= Qabs v2 ->
  rolling (calculate_resistance_force self v1)
    <= total (calculate_resistance_force self v1) /\
  total (calculate_resistance_force self v1)
    <= total (calculate_resistance_force self v2).
Proof.
  intros Hdrag Habs.
  unfold calculate_resistance_force; cbn [total rolling].
  assert (Hsq : forall v, v ^ 2 == Qabs v * Qabs v).
  { intros v. apply Qabs_case; intros _; simpl; ring. }
  assert (Hair : forall v,
    0.5 * Cd self * A self * rho self * (v / 3.6) ^ 2
    == (Cd self * A self * rho self) * (Qabs v * Qabs v) * (0.5 / (3.6 * 3.6))).
  { intros v. rewrite <- Hsq. simpl. field. }
  rewrite !Hair.
  pose proof (Qabs_nonneg v1) as H1. pose proof (Qabs_nonneg v2) as H2.
  assert (Hc : 0 < 0.5 / (3.6 * 3.6)) by reflexivity.
  set (c := 0.5 / (3.6 * 3.6)) in *.
  set (k := Cd self * A self * rho self) in *.
  assert (Hmono : Qabs v1 * Qabs v1 <= Qabs v2 * Qabs v2) by nra.
  assert (H0 : 0 <= Qabs v1 * Qabs v1) by nra.
  assert (Hp1 : 0 <= k * (Qabs v1 * Qabs v1) * c).
  { apply Qmult_le_0_compat; [apply Qmult_le_0_compat; assumption | lra]. }
  assert (Hp2 : k * (Qabs v1 * Qabs v1) * c <= k * (Qabs v2 * Qabs v2) * c).
  { apply Qmult_le_compat_r; [|lra].
    rewrite !(Qmult_comm k). apply Qmult_le_compat_r; assumption. }
  split; lra.
Qed.

Lemma resistance_grows_with_speed_witness :
  rolling (calculate_resistance_force vehicle_init (-10))
    <= total (calculate_resistance_force vehicle_init (-10)) /\
  total (calculate_resistance_force vehicle_init (-10))
    <= total (calculate_resistance_force vehicle_init 100).
Proof.
  apply (resistance_grows_with_speed vehicle_init (-10) 100); discriminate.
Defined.

(** ** Outcomes of the performance computation *)

Lemma interp_raises (xs xp fp : list Q) :
  xp = [] \/ length fp <> length xp -> interp xs xp fp = raise ValueError.
Proof.
  intros H. unfold interp. destruct xp as [|x xp]; [reflexivity|].
  destruct H as [H|H]; [discriminate|].
  apply Nat.eqb_neq in H. rewrite H. reflexivity.
Qed.

(** X19: [calculate_performance_indicators] prints no warning.  It
    returns exactly when the table holds the gears 5 and 1 and the engine
    arrays are non-empty and of equal length; it raises [KeyError] when
    one of the gears is missing, [ValueError] (from the interpolation)
    when the arrays are empty or differ in length, and never any other
    exception. *)
Theorem calculate_performance_indicators_outcome (self : Vehicle) :
  let has gear := exists ig, In (gear, ig) (gear_ratios self) in
  let well_formed :=
    engine_speed self <> [] /\
    length (engine_torque self) = length (engine_speed self) in
  stdout (calculate_performance_indicators self) = [] /\
  match result (calculate_performance_indicators self) with
  | Returns _ => has 5%nat /\ has 1%nat /\ well_formed
  | Raises e =>
      (e = KeyError /\ (~ has 5%nat \/ ~ has 1%nat)) \/
      (e = ValueError /\ has 5%nat /\ ~ well_formed)
  end.
Proof.
  intros has well_formed.
  destruct (getitem_spec (gear_ratios self) 5)
    as [(ig5 & Hg5 & Hin5) | (Hr5 & Hno5)].
  2:{ assert (E : calculate_performance_indicators self = raise KeyError).
      { unfold calculate_performance_indicators, max_speed, intersection_idx,
          calculate_tractive_force. rewrite Hr5. reflexivity. }
      rewrite E. cbn. split; [reflexivity|].
      left. split; [reflexivity|]. left. intros (ig & Hin).
      exact (Hno5 ig Hin). }
  assert (H5 : result (getitem (gear_ratios self) 5) = Returns ig5)
    by (rewrite Hg5; reflexivity).
  assert (Hhas5 : has 5%nat) by (exists ig5; exact Hin5).
  assert (Hwf : well_formed \/ ~ well_formed).
  { unfold well_formed. destruct (engine_speed self) as [|n ns].
    - right. intros [H _]. congruence.
    - destruct (Nat.eq_dec (length (engine_torque self)) (length (n :: ns)))
        as [E|E].
      + left. split; [discriminate | exact E].
      + right. intros [_ H]. contradiction. }
  destruct Hwf as [[Hne Hlen] | Hbad].
  - destruct (max_speed_scan self ig5 H5 Hne Hlen)
      as (_ & _ & ft_interp & _ & _ & _ & Hms).
    assert (Hms' : exists ms, max_speed self = ret ms)
      by (rewrite Hms; destruct (rev _); eauto).
    destruct Hms' as (ms & Hms').
    destruct (getitem_spec (gear_ratios self) 1)
      as [(ig1 & Hg1 & Hin1) | (Hr1 & Hno1)].
    + assert (H1 : result (getitem (gear_ratios self) 1) = Returns ig1)
        by (rewrite Hg1; reflexivity).
      destruct (available_force_returns self ig1 H1 Hne Hlen)
        as (_ & _ & _ & force & _ & _ & _ & Hav).
      destruct (indicators_return self _ _ Hms' Hav) as (p & -> & _).
      cbn. split; [reflexivity|]. split; [exact Hhas5|].
      split; [exists ig1; exact Hin1 | split; assumption].
    + assert (E : calculate_performance_indicators self = raise KeyError).
      { unfold calculate_performance_indicators. rewrite Hms', bind_ret.
        unfold available_force, calculate_tractive_force.
        rewrite Hr1. reflexivity. }
      rewrite E. cbn. split; [reflexivity|].
      left. split; [reflexivity|]. right. intros (ig & Hin).
      exact (Hno1 ig Hin).
  - assert (E : calculate_performance_indicators self = raise ValueError).
    { unfold calculate_performance_indicators, max_speed, intersection_idx.
      rewrite (calculate_tractive_force_returns self 5 ig5 H5), bind_ret.
      cbv beta iota. rewrite interp_raises; [reflexivity|].
      rewrite !length_map.
      destruct (engine_speed self) as [|n ns]; [left; reflexivity|].
      right. intros E. apply Hbad. split; [discriminate | exact E]. }
    rewrite E. cbn. split; [reflexivity|].
    right. split; [reflexivity|]. split; assumption.
Qed.

(** ** The top speed beyond the end of a tractive curve *)

Lemma interp_from_beyond (x x0 y0 : Q) (rest : list (Q * Q)) :
  Forall (fun p => fst p <= x) rest ->
  interp_from x x0 y0 rest = snd (last ((x0, y0) :: rest) (0, 0)).
Proof.
  revert x0 y0. induction rest as [|[x1 y1] rest IH]; intros x0 y0 H.
  - reflexivity.
  - inversion H as [|? ? Hx1 Hrest]; subst. cbn [interp_from].
    apply Qltb_ge in Hx1. cbn [fst] in Hx1. rewrite Hx1.
    rewrite (IH x1 y1 Hrest). reflexivity.
Qed.

Lemma interp_point_beyond (x : Q) (pts : list (Q * Q)) :
  Forall (fun p => fst p <= x) pts ->
  interp_point x pts = snd (last pts (0, 0)).
Proof.
  destruct pts as [|[x0 y0] rest]; intros H; [reflexivity|].
  inversion H as [|? ? Hx0 Hrest]; subst. cbn [interp_point].
  apply Qltb_ge in Hx0. cbn [fst] in Hx0. rewrite Hx0.
  apply interp_from_beyond. exact Hrest.
Qed.

Lemma last_combine (v ft : list Q) :
  length ft = length v ->
  snd (last (combine v ft) (0, 0)) = last ft 0.
Proof.
  revert ft. induction v as [|a v IH]; intros [|b ft] H; try discriminate;
    [reflexivity|].
  cbn [combine]. injection H as H.
  destruct v as [|a' v], ft as [|b' ft]; try discriminate; [reflexivity|].
  exact (IH (b' :: ft) H).
Qed.

Lemma Forall_combine_fst (P : Q -> Prop) (v ft : list Q) :
  Forall P v -> Forall (fun p => P (fst p)) (combine v ft).
Proof.
  intros H. revert ft. induction H as [|a v Ha _ IH]; intros [|b ft];
    cbn [combine]; constructor; auto.
Qed.

Lemma total_wd (self : Vehicle) (a b : Q) :
  a == b ->
  total (calculate_resistance_force self a)
  == total (calculate_resistance_force self b).
Proof.
  intros E. unfold calculate_resistance_force; cbn [total].
  rewrite E. reflexivity.
Qed.

(** X20: the interpolated tractive force stays at the last sample of the
    curve beyond the curve's last speed.  So when no speed of the curve of
    gear 5 exceeds 220 km/h and its last force is at least the resistance
    at 220 km/h, the reported top speed is 220.0 km/h, the end of the
    grid, however low the speeds of the curve. *)
Theorem top_speed_is_grid_end (self : Vehicle) (ig5 ig1 : Q)
    (v ft : list Q) :
  result (getitem (gear_ratios self) 5) = Returns ig5 ->
  result (getitem (gear_ratios self) 1) = Returns ig1 ->
  engine_speed self <> [] ->
  length (engine_torque self) = length (engine_speed self) ->
  curve_contract self ig5 ->
  result (calculate_tractive_force self 5) = Returns (v, ft) ->
  Forall (fun x => x <= 220) v ->
  total (calculate_resistance_force self 220) <= last ft 0 ->
  exists p,
    result (calculate_performance_indicators self) = Returns p /\
    max_speed_kmh p = 220.0.
Proof.
  intros Hg5 Hg1 Hne Hlen _ Hvft Hv Hforce.
  destruct (max_speed_scan self ig5 Hg5 Hne Hlen)
    as (v' & ft' & ft_interp & Htf & Hi & Hlt & Hms).
  assert (E : (v', ft') = (v, ft)).
  { rewrite Htf in Hvft. unfold result, ret in Hvft. cbn [snd] in Hvft.
    congruence. }
  injection E as -> ->. clear Hvft.
  assert (Hlenvft : length ft = length v).
  { rewrite (calculate_tractive_force_returns self 5 ig5 Hg5) in Htf.
    unfold ret in Htf.
    assert (Ev : map (fun n => 0.377 * n * r self
                               / (ig5 * final_drive_ratio self))
                     (engine_speed self) = v) by congruence.
    assert (Ef : map (fun Ttq => Ttq * ig5 * final_drive_ratio self
                                 * eta_T self / r self)
                     (engine_torque self) = ft) by congruence.
    rewrite <- Ev, <- Ef, !length_map. exact Hlen. }
  assert (Hxp : v <> []).
  { intros ->. rewrite (calculate_tractive_force_returns self 5 ig5 Hg5) in Htf.
    unfold ret in Htf.
    assert (Ev : map (fun n => 0.377 * n * r self
                               / (ig5 * final_drive_ratio self))
                     (engine_speed self) = []) by congruence.
    apply map_eq_nil in Ev. contradiction. }
  assert (Hinterp : ft_interp =
            map (fun x => interp_point x (combine v ft)) speed_range).
  { rewrite (interp_returns speed_range v ft Hxp Hlenvft) in Hi.
    unfold ret in Hi. congruence. }
  assert (Hlen_s : length speed_range = 500%nat) by reflexivity.
  assert (Hlr : length (resistance_total self) = 500%nat).
  { unfold resistance_total. rewrite !length_map. exact Hlen_s. }
  set (x := nth 499 speed_range 0) in *.
  assert (Hx : x == 220) by reflexivity.
  assert (Ht : nth 499 ft_interp 0 = last ft 0).
  { rewrite Hinterp.
    rewrite (nth_indep _ 0 (interp_point 0 (combine v ft)))
      by (rewrite length_map, Hlen_s; lia).
    rewrite (map_nth (fun x => interp_point x (combine v ft))).
    fold x. rewrite interp_point_beyond; [apply last_combine; exact Hlenvft|].
    apply (Forall_combine_fst (fun a => a <= x)).
    eapply Forall_impl; [|exact Hv].
    intros a Ha. cbv beta in Ha. rewrite Hx. exact Ha. }
  assert (Hr : nth 499 (resistance_total self) 0
               == total (calculate_resistance_force self 220)).
  { unfold resistance_total. rewrite map_map.
    rewrite (nth_indep _ 0
               (total (calculate_resistance_force self 0)))
      by (rewrite length_map, Hlen_s; lia).
    rewrite (map_nth (fun s => total (calculate_resistance_force self s))).
    fold x. apply total_wd. exact Hx. }
  assert (Hge : nth 499 (resistance_total self) 0 <= nth 499 ft_interp 0)
    by (rewrite Hr, Ht; exact Hforce).
  assert (Hafter : forall k, (499 < k)%nat ->
            (k < length ft_interp)%nat ->
            (k < length (resistance_total self))%nat ->
            nth k ft_interp 0 < nth k (resistance_total self) 0)
    by (intros k Hk Hka _; lia).
  destruct (where_ge_from_last ft_interp (resistance_total self) 0 499
              ltac:(lia) ltac:(lia) Hge Hafter) as (l & Hl).
  assert (Hms' : max_speed self = ret x).
  { rewrite Hms. unfold where_ge. rewrite Hl, rev_app_distr. reflexivity. }
  destruct (available_force_returns self ig1 Hg1 Hne Hlen)
    as (_ & _ & _ & force & _ & _ & _ & Hav).
  destruct (indicators_return self _ _ Hms' Hav) as (p & -> & Hs & _).
  exists p. split; [reflexivity|]. rewrite Hs. vm_compute. reflexivity.
Qed.

Lemma top_speed_is_grid_end_witness :
  exists p,
    result (calculate_performance_indicators vehicle_init) = Returns p /\
    max_speed_kmh p = 220.0.
Proof.
  pose (v := map (fun n => 0.377 * n * r vehicle_init / (6.53 * 6.727))
                 (engine_speed vehicle_init)).
  pose (ft := map (fun Ttq => Ttq * 6.53 * 6.727 * eta_T vehicle_init
                              / r vehicle_init)
                  (engine_torque vehicle_init)).
  apply (top_speed_is_grid_end vehicle_init 6.53 13.8 v ft).
  - reflexivity.
  - reflexivity.
  - discriminate.
  - reflexivity.
  - split; reflexivity.
  - reflexivity.
  - repeat constructor; apply Qle_bool_iff; vm_compute; reflexivity.
  - apply Qle_bool_iff. vm_compute. reflexivity.
Defined.

(** ** The ranges of the reported indicators *)

Section Ranges.

Local Open Scope R_scope.

Lemma round_half_even_R_ge (x : R) (n : Z) :
  IZR n <= x -> (n <= round_half_even_R x)%Z.
Proof.
  intros Hx. unfold round_half_even_R.
  destruct (base_Int_part x) as [Hlo Hhi].
  assert (Hn : (n <= Int_part x)%Z).
  { apply Z.lt_succ_r. apply lt_IZR. rewrite succ_IZR. lra. }
  repeat destruct (Rlt_dec _ _); try destruct (Z.even _); lia.
Qed.

Lemma round_half_even_R_below_half (x : R) (n : Z) :
  x < IZR n + 1 / 2 -> (round_half_even_R x <= n)%Z.
Proof.
  intros Hx. unfold round_half_even_R.
  destruct (base_Int_part x) as [Hlo Hhi].
  assert (Hn : (Int_part x <= n)%Z).
  { apply Z.lt_succ_r. apply lt_IZR. rewrite succ_IZR. lra. }
  destruct (Z.eq_dec (Int_part x) n) as [E|E].
  - assert (Hfr : x - IZR (Int_part x) < 1 / 2) by (rewrite E; lra).
    destruct (Rlt_dec _ _); [lia | contradiction].
  - repeat destruct (Rlt_dec _ _); try destruct (Z.even _); lia.
Qed.

Lemma round1_R_nonneg (x : R) : 0 <= x -> 0 <= round1_R x.
Proof.
  intros Hx. unfold round1_R.
  assert (H : (0 <= round_half_even_R (x * 10))%Z)
    by (apply round_half_even_R_ge; lra).
  apply IZR_le in H. lra.
Qed.

Lemma tan_asin_percent (x : R) :
  0 <= x <= 1 / 2 -> 0 <= tan (asin x) * 100 < 57.75.
Proof.
  intros [H0 H1]. rewrite tan_asin by lra.
  assert (Hsq : 0.866 * 0.866 <= 1 - x²) by (unfold Rsqr; nra).
  assert (Hs : 0.866 <= sqrt (1 - x²)).
  { rewrite <- (sqrt_square 0.866) by lra. apply sqrt_le_1_alt. exact Hsq. }
  set (s := sqrt (1 - x²)) in *.
  assert (Hinv : 0 < / s) by (apply Rinv_0_lt_compat; lra).
  unfold Rdiv. split.
  - apply Rmult_le_pos; [apply Rmult_le_pos; lra | lra].
  - apply Rmult_lt_reg_r with s; [lra|].
    replace (x * / s * 100 * s) with (x * 100 * (/ s * s)) by ring.
    rewrite Rinv_l by lra. nra.
Qed.

Lemma round1_R_percent (y : R) :
  0 <= y < 57.75 -> 0 <= round1_R y <= 57.7.
Proof.
  intros [H0 H1]. split; [apply round1_R_nonneg; exact H0|].
  unfold round1_R.
  assert (H : (round_half_even_R (y * 10) <= 577)%Z)
    by (apply round_half_even_R_below_half; lra).
  apply IZR_le in H. lra.
Qed.

End Ranges.

Lemma indicators_inversion (self : Vehicle) (p : Indicators) :
  result (calculate_performance_indicators self) = Returns p ->
  exists ms avail,
    result (max_speed self) = Returns ms /\
    result (available_force self) = Returns avail /\
    max_speed_kmh p = round1 ms /\
    max_grade_deg p = round1_R (fst (max_grade self avail)) /\
    max_grade_percent p = round1_R (snd (max_grade self avail)) /\
    accel_time_s p = round1 ((100 / 3.6) / 2.5).
Proof.
  unfold calculate_performance_indicators, bind.
  destruct (max_speed self) as [o1 [ms|e]]; [|discriminate].
  destruct (available_force self) as [o2 [avail|e]]; [|discriminate].
  destruct (max_grade self avail) as [deg pct] eqn:Hmg.
  unfold result, ret. cbn [snd fst]. intros H.
  exists ms, avail. injection H as <-. rewrite Hmg. repeat split.
Qed.

(** X21: whenever [calculate_performance_indicators] returns, the angle
    it reports lies between 0 and 30 degrees and the percentage between 0
    and 57.7, the rounded tangent of 30 degrees. *)
Theorem gradeability_report_bounds (self : Vehicle) (p : Indicators) :
  result (calculate_performance_indicators self) = Returns p ->
  (0 <= max_grade_deg p <= 30)%R /\ (0 <= max_grade_percent p <= 57.7)%R.
Proof.
  intros H.
  destruct (indicators_inversion self p H)
    as (ms & avail & _ & _ & _ & -> & -> & _).
  unfold max_grade. destruct (Qltb 0 avail); cbn [fst snd].
  - pose proof (Q2R_sin_theta_bounds self avail) as Hs.
    split.
    + split; [apply round1_R_nonneg | apply round1_R_le_30];
        apply asin_degrees_le_30; exact Hs.
    + apply round1_R_percent. apply tan_asin_percent. exact Hs.
  - rewrite round1_R_0. split; lra.
Qed.

Lemma gradeability_report_bounds_witness :
  exists p,
    result (calculate_performance_indicators vehicle_init) = Returns p /\
    (0 <= max_grade_deg p <= 30)%R /\ (0 <= max_grade_percent p <= 57.7)%R.
Proof.
  assert (Hms : max_speed vehicle_init = ret (nth 499 speed_range 0))
    by (vm_compute; reflexivity).
  destruct (available_force_returns vehicle_init 13.8)
    as (_ & _ & _ & force & _ & _ & _ & Hav);
    [reflexivity | discriminate | reflexivity |].
  destruct (indicators_return vehicle_init _ _ Hms Hav) as (p & Hp & _).
  assert (H : result (calculate_performance_indicators vehicle_init)
              = Returns p) by (rewrite Hp; reflexivity).
  exists p. split; [exact H|].
  exact (gradeability_report_bounds vehicle_init p H).
Defined.

Lemma speed_range_bounds (i : nat) : 0 <= nth i speed_range 0 <= 220.
Proof.
  assert (Hall : forallb (fun x => Qle_bool 0 x && Qle_bool x 220)
                         speed_range = true) by (vm_compute; reflexivity).
  rewrite forallb_forall in Hall.
  destruct (Nat.lt_ge_cases i (length speed_range)) as [Hi|Hi].
  - specialize (Hall _ (nth_In speed_range 0 Hi)).
    apply andb_true_iff in Hall. destruct Hall as [H0 H1].
    split; apply Qle_bool_iff; assumption.
  - rewrite nth_overflow by exact Hi. split; discriminate.
Qed.

Lemma max_speed_range (self : Vehicle) (ms : Q) :
  result (max_speed self) = Returns ms -> 0 <= ms <= 220.
Proof.
  unfold max_speed, bind.
  destruct (intersection_idx self) as [o [idxs|e]]; [|discriminate].
  destruct (rev idxs) as [|last_idx others];
    unfold result, ret; cbn [snd]; intros H; injection H as <-.
  - split; discriminate.
  - apply speed_range_bounds.
Qed.

Lemma round_half_even_range (y : Q) (n : Z) :
  0 <= y <= inject_Z n -> (0 <= round_half_even y <= n)%Z.
Proof.
  intros [H0 H1]. unfold round_half_even.
  pose proof (Qfloor_le y) as Hfl.
  pose proof (Qfloor_resp_le _ _ H0) as Hn0.
  pose proof (Qfloor_resp_le _ _ H1) as Hn1.
  rewrite Qfloor_Z in Hn1. change (Qfloor 0) with 0%Z in Hn0.
  destruct (Qcompare (y - inject_Z (Qfloor y)) (1 # 2)) eqn:E.
  - destruct (Z.even _); [lia|].
    destruct (Z.eq_dec (Qfloor y) n) as [En|]; [|lia].
    exfalso. apply Qeq_alt in E. rewrite En in E. lra.
  - lia.
  - destruct (Z.eq_dec (Qfloor y) n) as [En|]; [|lia].
    exfalso. apply Qgt_alt in E. rewrite En in E. lra.
Qed.

Lemma round1_range (q : Q) : 0 <= q <= 220 -> 0 <= round1 q <= 220.
Proof.
  intros [H0 H1].
  assert (H : (0 <= round_half_even (q * 10) <= 2200)%Z).
  { apply round_half_even_range. change (inject_Z 2200) with 2200. lra. }
  unfold round1, Qle. cbn [Qnum Qden]. lia.
Qed.

(** X22: whenever [calculate_performance_indicators] returns, the top
    speed it reports lies between 0 and 220 km/h, the ends of its grid,
    and the acceleration time it reports is 11.1 s, whatever the
    vehicle. *)
Theorem top_speed_report_bounds (self : Vehicle) (p : Indicators) :
  result (calculate_performance_indicators self) = Returns p ->
  0 <= max_speed_kmh p <= 220 /\ accel_time_s p = 11.1.
Proof.
  intros H.
  destruct (indicators_inversion self p H)
    as (ms & avail & Hms & _ & -> & _ & _ & ->).
  split; [|reflexivity].
  apply round1_range. exact (max_speed_range self ms Hms).
Qed.

Lemma top_speed_report_bounds_witness :
  exists p,
    result (calculate_performance_indicators stalled) = Returns p /\
    0 <= max_speed_kmh p <= 220 /\ accel_time_s p = 11.1.
Proof.
  assert (Hms : max_speed stalled = ret 0) by (vm_compute; reflexivity).
  destruct (available_force_returns stalled 13.8)
    as (_ & _ & _ & force & _ & _ & _ & Hav);
    [reflexivity | discriminate | reflexivity |].
  destruct (indicators_return stalled _ _ Hms Hav) as (p & Hp & _).
  assert (H : result (calculate_performance_indicators stalled) = Returns p)
    by (rewrite Hp; reflexivity).
  exists p. split; [exact H|].
  exact (top_speed_report_bounds stalled p H).
Defined.
